(** * autokeras/utils/utils.py: a shallow embedding and its properties

    The module is a flat collection of helpers.  Each Python function is
    embedded under its own name; effects (raising, printing, warning,
    calling a user-supplied callable) are made explicit in the result
    type.  Objects of external libraries (tf.data.Dataset, tf.nest,
    packaging.version, keras_tuner.HyperParameters) are modelled by the
    small part of their interface that the module touches. *)

From Stdlib Require Import Ascii.
From stdpp Require Import base gmap strings list pretty sorting.

Open Scope Z_scope.

(** ** Python values and exceptions *)

Module Py.

(** Exception classes that the module raises or lets through. *)
Inductive exn_class :=
| ResourceExhaustedError
| ValueError
| KeyError
| AttributeError
| UnboundLocalError
| InvalidVersion
| OtherError (class_name : string).

(** An exception object: its class and its message.  Re-raising an
    object is returning the very same record. *)
Record exn := Exn { exn_cls : exn_class; exn_msg : string }.

(** [except tf.errors.ResourceExhaustedError as e] *)
Definition is_resource_exhausted (e : exn) : bool :=
  match exn_cls e with
  | ResourceExhaustedError => true
  | _ => false
  end.

(** tf.data.Dataset, as far as [unbatch] and [batch] are concerned: the
    stream of rows and the stack of batch sizes applied to it, outermost
    first.  [d.batch(n)] pushes [n]; [d.unbatch()] pops the outermost
    batching and raises when there is none to undo. *)
Record Dataset := Ds { ds_rows : list Z; ds_batching : list Z }.

Definition batch (n : Z) (d : Dataset) : Dataset :=
  Ds (ds_rows d) (n :: ds_batching d).

Definition unbatch (d : Dataset) : exn + Dataset :=
  match ds_batching d with
  | [] => inl (Exn ValueError "Cannot unbatch an input with scalar components.")
  | _ :: bs => inr (Ds (ds_rows d) bs)
  end.

(** The batch size a consumer of the dataset observes. *)
Definition batch_size_of (d : Dataset) : option Z := head (ds_batching d).

(** The elements a consumer iterates over when one level of batching is
    applied to [rows]: consecutive groups of [n] rows, the last one
    possibly shorter. *)
Fixpoint chunks_fuel (fuel n : nat) (rows : list Z) : list (list Z) :=
  match fuel, rows with
  | O, _ | _, [] => []
  | S fuel', _ => take n rows :: chunks_fuel fuel' n (drop n rows)
  end.

Definition batches (d : Dataset) : list (list Z) :=
  match ds_batching d with
  | [] => (λ r, [r]) <$> ds_rows d
  | n :: _ => chunks_fuel (length (ds_rows d)) (Z.to_nat n) (ds_rows d)
  end.

Inductive value :=
| VNone
| VInt (z : Z)
| VStr (s : string)
| VDataset (d : Dataset)
| VObject (id : nat).

Definition is_none (v : value) : bool :=
  match v with VNone => true | _ => false end.

(** [v.unbatch().batch(n)] on an arbitrary value: only datasets have the
    two methods. *)
Definition unbatch_batch (v : value) (n : Z) : exn + value :=
  match v with
  | VDataset d =>
      match unbatch d with
      | inl e => inl e
      | inr d' => inr (VDataset (batch n d'))
      end
  | _ => inl (Exn AttributeError "object has no attribute 'unbatch'")
  end.

End Py.
Import Py.

(** ** run_with_adaptive_batch_size *)

Module Adaptive.

(** One invocation of [func], recorded for the statements below: the
    value of the local [batch_size] at the time of the call and the two
    dataset arguments. *)
Record Call := MkCall {
  call_batch_size : Z;
  call_x : value;
  call_validation_data : value }.

Section Run.
(** [func] is an arbitrary Python callable: it may depend on and change
    some state of its own, and either returns or raises. *)
Context {World : Type}.

Definition callable :=
  World → value → value → gmap string value → World * (exn + value).

(** Everything outside the function's own frame. *)
Record Env := MkEnv {
  world : World;
  stdout : list string;
  calls : list Call }.

(** The locals that the loop reads and assigns. *)
Record Locals := MkLocals {
  batch_size : Z;
  x : value;
  validation_data : value;
  fit_kwargs : gmap string value }.

(** How one pass through the body ends: at the bottom of the [except]
    clause (the loop tests its condition again), at [break] with
    [history] bound, or by an exception leaving the function. *)
Inductive Step :=
| Continue
| Break (history : value)
| Raise (e : exn).

Definition reduce_message (bs : Z) : string :=
  "Not enough memory, reduce batch size to " +:+ pretty bs +:+ ".".

(** The body of the [while], lines 100-114.  It returns the locals and
    the environment as they are when the pass ends. *)
Definition loop_body (func : callable) (l : Locals) (env : Env)
  : Step * Locals * Env :=
  let '(w, r) :=
    func (world env) (x l) (validation_data l) (fit_kwargs l) in
  let env :=
    MkEnv w (stdout env)
      (calls env ++ [MkCall (batch_size l) (x l) (validation_data l)]) in
  match r with
  | inr history => (Break history, l, env)
  | inl e =>
      if is_resource_exhausted e then
        if batch_size l =? 1 then (Raise e, l, env)
        else
          let bs := batch_size l `div` 2 in
          let l := MkLocals bs (x l) (validation_data l) (fit_kwargs l) in
          let env :=
            MkEnv (world env) (stdout env ++ [reduce_message bs])
              (calls env) in
          match unbatch_batch (x l) bs with
          | inl e' => (Raise e', l, env)
          | inr x' =>
              let l := MkLocals bs x' (validation_data l) (fit_kwargs l) in
              if is_none (validation_data l) then (Continue, l, env)
              else
                match unbatch_batch (validation_data l) bs with
                | inl e' => (Raise e', l, env)
                | inr v' =>
                    let l := MkLocals bs x' v' (fit_kwargs l) in
                    (Continue, l, env)
                end
          end
      else (Raise e, l, env)
  end.

Inductive Outcome :=
| Returned (v : value)
| Raised (e : exn)
| OutOfFuel.

Definition unbound_history : exn :=
  Exn UnboundLocalError
    "local variable 'history' referenced before assignment".

(** [while batch_size > 0: ...; return history].  The only way out of
    the body without raising is [break], which is also the only place
    where [history] is bound; when the condition fails, [history] is
    unbound.  The result carries the locals as they are when the call
    ends. *)
Fixpoint while_loop (func : callable) (fuel : nat) (l : Locals) (env : Env)
  : Outcome * Locals * Env :=
  if 0 <? batch_size l then
    match fuel with
    | O => (OutOfFuel, l, env)
    | S fuel' =>
        match loop_body func l env with
        | (Continue, l', env') => while_loop func fuel' l' env'
        | (Break history, l', env') => (Returned history, l', env')
        | (Raise e, l', env') => (Raised e, l', env')
        end
    end
  else (Raised unbound_history, l, env).

Definition run_with_adaptive_batch_size (fuel : nat) (batch_size : Z)
    (func : callable) (fit_kwargs : gmap string value) (env : Env)
  : Outcome * option Locals * Env :=
  match fit_kwargs !! "x" with
  | None => (Raised (Exn KeyError "'x'"), None, env)
  | Some x =>
      let fit_kwargs := delete "x" fit_kwargs in
      let '(validation_data, fit_kwargs) :=
        match fit_kwargs !! "validation_data" with
        | Some v => (v, delete "validation_data" fit_kwargs)
        | None => (VNone, fit_kwargs)
        end in
      let '(o, l, env') :=
        while_loop func fuel
          (MkLocals batch_size x validation_data fit_kwargs) env in
      (o, Some l, env')
  end.

End Run.

Arguments Env : clear implicits.
Arguments callable : clear implicits.

(** *** Vocabulary for the statements about the loop *)

(** The environment after one more invocation of [func] that left the
    callable's state at [w]. *)
Definition invoked {World} (l : Locals) (env : Env World) (w : World)
  : Env World :=
  MkEnv w (stdout env)
    (calls env ++ [MkCall (batch_size l) (x l) (validation_data l)]).

(** The locals once a retry is prepared. *)
Definition halved (l : Locals) (x' v' : value) : Locals :=
  MkLocals (batch_size l `div` 2) x' v' (fit_kwargs l).

(** The environment after the message about the new batch size. *)
Definition announced {World} (env : Env World) (bs : Z) : Env World :=
  MkEnv (world env) (stdout env ++ [reduce_message bs]) (calls env).

(** [b; b // 2; b // 4; ...], [n] numbers. *)
Fixpoint halvings (n : nat) (b : Z) : list Z :=
  match n with
  | O => []
  | S n' => b :: halvings n' (b `div` 2)
  end.

(** A value on which [.unbatch().batch(n)] succeeds. *)
Definition rebatchable (v : value) : Prop :=
  ∃ d, v = VDataset d ∧ ds_batching d ≠ [].

End Adaptive.

(** ** validate_num_inputs *)

Module Nest.

(** The nested structures [tf.nest] takes apart: a list or tuple, a
    dict with string keys, and a leaf, which is a value that [tf.nest]
    does not take apart ([None], a number, a string, a dataset).  Another
    sequence, which it does take apart, is given here as the [Sequence]
    of its items. *)
#[local] Unset Elimination Schemes.
Inductive structure :=
| Leaf (v : value)
| Sequence (items : list structure)
| Mapping (items : list (string * structure)).
#[local] Set Elimination Schemes.

(** [nest.flatten] visits the entries of a dict in the order of their
    sorted keys. *)
Fixpoint insert_by_key {A} (kv : string * A) (l : list (string * A))
  : list (string * A) :=
  match l with
  | [] => [kv]
  | kv' :: l' =>
      if String.leb kv.1 kv'.1 then kv :: l
      else kv' :: insert_by_key kv l'
  end.

Definition sort_by_key {A} (l : list (string * A)) : list (string * A) :=
  foldr insert_by_key [] l.

Fixpoint flatten (s : structure) : list value :=
  match s with
  | Leaf v => [v]
  | Sequence items => concat (map flatten items)
  | Mapping items =>
      concat (map snd (sort_by_key (map (λ kv, (kv.1, flatten kv.2)) items)))
  end.

End Nest.

Inductive Result (A : Type) :=
| Normal (a : A)
| Raises (e : exn).
Arguments Normal {A} a.
Arguments Raises {A} e.

Definition validate_num_inputs (inputs : Nest.structure) (num : Z)
  : Result unit :=
  let inputs := Nest.flatten inputs in
  if negb (Z.of_nat (length inputs) =? num) then
    Raises (Exn ValueError
      ("Expected " +:+ pretty num +:+ " elements in the inputs list "
       +:+ "but received " +:+ pretty (Z.of_nat (length inputs))
       +:+ " inputs."))
  else Normal ().

(** ** to_snake_case *)

(** The fragment of Python's [re] that the two patterns of
    [to_snake_case] are written in, with the backtracking semantics of
    [re.sub]: leftmost match, greedy repetition, non-overlapping matches
    replaced from left to right.  Strings are sequences of 8-bit
    characters. *)
Module Re.

Definition chars := list ascii.

(** A pattern that matches one character. *)
Inductive cset :=
| Dot                                  (* .  : anything but a newline *)
| Ranges (rs : list (ascii * ascii)).  (* [a-z0-9] *)

Definition in_range (c : ascii) (r : ascii * ascii) : bool :=
  (N_of_ascii r.1 <=? N_of_ascii c)%N && (N_of_ascii c <=? N_of_ascii r.2)%N.

Definition newline : ascii := ascii_of_N 10.

Definition cset_mem (cs : cset) (c : ascii) : bool :=
  match cs with
  | Dot => negb (N_of_ascii c =? 10)%N
  | Ranges rs => existsb (in_range c) rs
  end.

Inductive regex :=
| Chr (cs : cset)               (* one character *)
| Plus (cs : cset)              (* cs+, greedy *)
| Seq (r1 r2 : regex)           (* r1 r2 *)
| Group (i : nat) (r : regex).  (* ( r ), the i-th capturing group *)

Abbreviation captures := (gmap nat chars).

(** [cs*] in front of the continuation [k]: take as many characters as
    possible, and give one back at a time while [k] fails. *)
Fixpoint match_star {R} (cs : cset) (inp : chars) (k : chars → option R)
  : option R :=
  match inp with
  | c :: rest =>
      if cset_mem cs c then
        match match_star cs rest k with
        | Some r => Some r
        | None => k inp
        end
      else k inp
  | [] => k []
  end.

(** Backtracking matcher in continuation-passing style: [k] receives the
    input that is left and the groups captured so far. *)
Fixpoint match_re {R} (r : regex) (inp : chars) (caps : captures)
    (k : chars → captures → option R) : option R :=
  match r with
  | Chr cs =>
      match inp with
      | c :: rest => if cset_mem cs c then k rest caps else None
      | [] => None
      end
  | Plus cs =>
      match inp with
      | c :: rest =>
          if cset_mem cs c then match_star cs rest (λ rest', k rest' caps)
          else None
      | [] => None
      end
  | Seq r1 r2 =>
      match_re r1 inp caps (λ rest caps', match_re r2 rest caps' k)
  | Group i r =>
      match_re r inp caps
        (λ rest caps',
           k rest (<[i := take (length inp - length rest) inp]> caps'))
  end.

(** [pattern.match(inp)]: the number of characters consumed and the
    groups. *)
Definition match_at (r : regex) (inp : chars) : option (nat * captures) :=
  match_re r inp ∅
    (λ rest caps, Some ((length inp - length rest)%nat, caps)).

(** Replacement templates: literal text and [\i]. *)
Inductive piece :=
| Lit (s : chars)
| Backref (i : nat).

Definition expand (tpl : list piece) (caps : captures) : chars :=
  concat (map (λ p, match p with
                    | Lit s => s
                    | Backref i => default [] (caps !! i)
                    end) tpl).

(** [re.sub(r, tpl, inp)].  [skip] counts the characters of [inp] that
    the last match has already consumed.  Every pattern of this fragment
    consumes at least one character, so the case of an empty match
    never arises; it is treated as a failure to match. *)
Fixpoint sub_from (r : regex) (tpl : list piece) (skip : nat) (inp : chars)
  : chars :=
  match inp with
  | [] => []
  | c :: rest =>
      match skip with
      | S n => sub_from r tpl n rest
      | O =>
          match match_at r inp with
          | Some (S n, caps) => expand tpl caps ++ sub_from r tpl n rest
          | _ => c :: sub_from r tpl 0 rest
          end
      end
  end.

Definition sub (r : regex) (tpl : list piece) (inp : chars) : chars :=
  sub_from r tpl 0 inp.

(** [str.lower], for names written in ASCII: the letters A to Z are
    mapped to a to z and every other character is left as it is. *)
Definition is_upper (c : ascii) : bool := in_range c ("A", "Z")%char.
Definition is_lower (c : ascii) : bool := in_range c ("a", "z")%char.
Definition is_digit (c : ascii) : bool := in_range c ("0", "9")%char.

Definition lower_char (c : ascii) : ascii :=
  if is_upper c then ascii_of_N (N_of_ascii c + 32) else c.

Definition lower (s : chars) : chars := map lower_char s.

End Re.

(** "(.)([A-Z][a-z0-9]+)" *)
Definition pattern1 : Re.regex :=
  Re.Seq (Re.Group 1 (Re.Chr Re.Dot))
         (Re.Group 2 (Re.Seq (Re.Chr (Re.Ranges [("A", "Z")%char]))
                             (Re.Plus (Re.Ranges [("a", "z"); ("0", "9")]%char)))).

(** "([a-z])([A-Z])" *)
Definition pattern2 : Re.regex :=
  Re.Seq (Re.Group 1 (Re.Chr (Re.Ranges [("a", "z")%char])))
         (Re.Group 2 (Re.Chr (Re.Ranges [("A", "Z")%char]))).

(** r"\1_\2" *)
Definition template : list Re.piece :=
  [Re.Backref 1; Re.Lit ["_"%char]; Re.Backref 2].

Definition to_snake_case_chars (name : Re.chars) : Re.chars :=
  let intermediate := Re.sub pattern1 template name in
  let insecure := Re.lower (Re.sub pattern2 template intermediate) in
  insecure.

Definition to_snake_case (name : string) : string :=
  String.string_of_list_ascii
    (to_snake_case_chars (String.list_ascii_of_string name)).

(** *** The two passes, character by character *)

Module Words.
Import Re.

Definition is_lowdig (c : ascii) : bool := is_lower c || is_digit c.
Definition not_newline (c : ascii) : bool := negb (N_of_ascii c =? 10)%N.

(** The longest prefix of [s] whose characters satisfy [p], and what
    follows it. *)
Fixpoint run (p : ascii → bool) (s : chars) : chars :=
  match s with
  | c :: rest => if p c then c :: run p rest else []
  | [] => []
  end.

Fixpoint after_run (p : ascii → bool) (s : chars) : chars :=
  match s with
  | c :: rest => if p c then after_run p rest else s
  | [] => []
  end.

(** A capitalized word is an uppercase letter followed by one or more
    lowercase letters or digits, as many as there are.  The scanner puts
    a separator between a character that satisfies [before] and a
    capitalized word that follows it; [in_word] says that the scanner is
    still inside the capitalized word it found last, whose characters
    are copied and never start a new word. *)
Fixpoint separate_words (before : ascii → bool) (in_word : bool)
    (s : chars) : chars :=
  match s with
  | [] => []
  | c :: rest =>
      if in_word && is_lowdig c then c :: separate_words before true rest
      else
        match rest with
        | u :: l :: rest' =>
            if before c && is_upper u && is_lowdig l
            then c :: "_"%char :: u :: l :: separate_words before true rest'
            else c :: separate_words before false rest
        | _ => c :: separate_words before false rest
        end
  end.

(** A separator between every lowercase letter and an uppercase letter
    that follows it immediately. *)
Fixpoint separate_humps (s : chars) : chars :=
  match s with
  | [] => []
  | c :: rest =>
      if is_lower c && match rest with u :: _ => is_upper u | [] => false end
      then c :: "_"%char :: separate_humps rest
      else c :: separate_humps rest
  end.

(** A string without uppercase letters. *)
Definition no_upper (s : chars) : Prop := Forall (λ c, is_upper c = false) s.

(** The conversion with the first pass as the specification words it:
    the separator goes between a lowercase letter or digit and a
    capitalized word that follows. *)
Definition snake_case_as_described (name : string) : string :=
  String.string_of_list_ascii
    (lower (separate_humps
              (separate_words is_lowdig false
                 (String.list_ascii_of_string name)))).

(** The conversion with the first pass as the pattern has it: the
    separator goes between any character but a newline and a capitalized
    word that follows. *)
Definition snake_case_by_scanning (name : string) : string :=
  String.string_of_list_ascii
    (lower (separate_humps
              (separate_words not_newline false
                 (String.list_ascii_of_string name)))).

End Words.

(** ** check_tf_version, check_kt_version *)

(** What the two checks need of [packaging.version]: [parse], which
    raises [InvalidVersion] on a string that is no version, and the order
    on parsed versions. *)
Class Packaging := {
  version : Type;
  parse : string → exn + version;
  version_ltb : version → version → bool }.

(** A small implementation of the interface, on which the checks can be
    run: the release numbers of PEP 440, "N(.N)*", that is the numeric
    components, compared component by component with missing components
    read as zero, so that "2.7" and "2.7.0" are the same version and
    "2.10.0" is above "2.7.0".  It is not the library: it rejects the
    other forms of PEP 440 (epochs, pre-, post- and development releases,
    local versions), which the library parses.  What is stated of the two
    checks below is stated for every implementation of the interface;
    this one serves the examples. *)
Module Dotted.

Definition digit_value (c : ascii) : option N :=
  if Re.is_digit c then Some (N_of_ascii c - 48)%N else None.

(** A non-empty run of decimal digits. *)
Fixpoint number_from (acc : N) (s : list ascii) : option N :=
  match s with
  | [] => Some acc
  | c :: s' =>
      match digit_value c with
      | Some d => number_from (10 * acc + d)%N s'
      | None => None
      end
  end.

Definition number (s : list ascii) : option N :=
  match s with
  | [] => None
  | _ => number_from 0 s
  end.

(** [s.split(".")] *)
Fixpoint split_dots (cur : list ascii) (s : list ascii)
  : list (list ascii) :=
  match s with
  | [] => [reverse cur]
  | c :: s' =>
      if Ascii.eqb c "."%char then reverse cur :: split_dots [] s'
      else split_dots (c :: cur) s'
  end.

Definition parse_release (s : string) : option (list N) :=
  mapM number (split_dots [] (String.list_ascii_of_string s)).

Fixpoint release_ltb (a b : list N) : bool :=
  match a, b with
  | [], [] => false
  | [], y :: b' => if (0 <? y)%N then true else release_ltb [] b'
  | x :: a', [] => false
  | x :: a', y :: b' =>
      if (x <? y)%N then true
      else if (y <? x)%N then false
      else release_ltb a' b'
  end.

#[export] Instance packaging : Packaging := {|
  version := list N;
  parse s :=
    match parse_release s with
    | Some v => inr v
    | None => inl (Exn InvalidVersion ("Invalid version: '" +:+ s +:+ "'"))
    end;
  version_ltb := release_ltb |}.

End Dotted.

(** A call of [warnings.warn(message, category)]. *)
Record Warning := Warn { warn_message : string; warn_category : string }.

Definition nl : string := String (ascii_of_N 10) EmptyString.

Section Versions.
Context `{Packaging}.

(** [installed] is [tf.__version__].  The result is the outcome of the
    call and the warnings it issued. *)
Definition check_tf_version (installed : string)
  : Result unit * list Warning :=
  match parse installed with
  | inl e => (Raises e, [])
  | inr v =>
      match parse "2.7.0" with
      | inl e => (Raises e, [])
      | inr minimum =>
          if version_ltb v minimum then
            (Normal (),
             [Warn
                ("The Tensorflow package version needs to be at least 2.7.0 "
                 +:+ nl +:+
                 "for AutoKeras to run. Currently, your TensorFlow version is "
                 +:+ nl +:+
                 installed +:+ ". Please upgrade with " +:+ nl +:+
                 "`$ pip install --upgrade tensorflow`. " +:+ nl +:+
                 "You can use `pip freeze` to check afterwards that everything is ok.")
                "ImportWarning"])
          else (Normal (), [])
      end
  end.

(** [installed] is [keras_tuner.__version__]. *)
Definition check_kt_version (installed : string)
  : Result unit * list Warning :=
  match parse installed with
  | inl e => (Raises e, [])
  | inr v =>
      match parse "1.1.0" with
      | inl e => (Raises e, [])
      | inr minimum =>
          if version_ltb v minimum then
            (Normal (),
             [Warn
                ("The Keras Tuner package version needs to be at least 1.1.0 "
                 +:+ nl +:+
                 "for AutoKeras to run. Currently, your Keras Tuner version is "
                 +:+ nl +:+
                 installed +:+ ". Please upgrade with " +:+ nl +:+
                 "`$ pip install --upgrade keras-tuner`. " +:+ nl +:+
                 "You can use `pip freeze` to check afterwards that everything is ok.")
                "ImportWarning"])
          else (Normal (), [])
      end
  end.

End Versions.

(** ** get_hyperparameter, add_to_hp *)

Definition get_hyperparameter (value hp dtype : Py.value) : Py.value :=
  if is_none value then hp else value.

Module HP.

(** An instance of [keras_tuner.engine.hyperparameters.HyperParameter]:
    the name of its class, its [name] attribute and what [get_config()]
    returns. *)
Record HyperParameter := MkHP {
  hp_class_name : string;
  hp_name : string;
  hp_get_config : gmap string value }.

(** What [add_to_hp] may receive as [hp]. *)
Inductive object :=
| Plain (v : value)
| Instance (h : HyperParameter).

Definition isinstance_HyperParameter (o : object) : bool :=
  match o with Instance _ => true | Plain _ => false end.

(** What is done to the container [hps], in order: attribute lookups
    and calls of the methods found. *)
Inductive registry_op :=
| Getattr (attr : string)
| Invoke (attr : string) (name : string) (kwargs : gmap string value).

(** [keras_tuner.HyperParameters], as [add_to_hp] uses it: the names of
    its methods, and what calling one of them with [name] and the other
    keyword arguments does to the container and returns. *)
Class HyperParameters (R : Type) := {
  has_method : R → string → bool;
  invoke : R → string → string → gmap string value → R * (exn + value) }.

Section AddToHp.
Context {R : Type} `{HyperParameters R}.

(** [dict.pop(key)] *)
Definition pop (key : string) (d : gmap string value)
  : exn + gmap string value :=
  match d !! key with
  | Some _ => inr (delete key d)
  | None => inl (Exn KeyError ("'" +:+ key +:+ "'"))
  end.

(** The result, the container afterwards, and the operations
    performed on the container. *)
Definition add_to_hp (hp : object) (hps : R) (name : option string)
  : Result object * R * list registry_op :=
  match hp with
  | Plain _ => (Normal hp, hps, [])
  | Instance h =>
      let kwargs := hp_get_config h in
      let name := match name with None => hp_name h | Some n => n end in
      match pop "conditions" kwargs with
      | inl e => (Raises e, hps, [])
      | inr kwargs =>
          match pop "name" kwargs with
          | inl e => (Raises e, hps, [])
          | inr kwargs =>
              let class_name := hp_class_name h in
              if has_method hps class_name then
                let '(hps', r) := invoke hps class_name name kwargs in
                (match r with
                 | inl e => Raises e
                 | inr v => Normal (Plain v)
                 end,
                 hps', [Getattr class_name; Invoke class_name name kwargs])
              else
                (Raises (Exn AttributeError
                   ("'HyperParameters' object has no attribute '"
                    +:+ class_name +:+ "'")),
                 hps, [Getattr class_name])
          end
      end
  end.

End AddToHp.

End HP.

(** ** Sample inputs *)

Module Samples.
Import Adaptive HP.

Definition oom : exn :=
  Exn ResourceExhaustedError "OOM when allocating tensor".

(** A callable that counts its invocations in its state, runs out of
    memory on datasets batched by 32, 16 or 8, and returns otherwise. *)
Definition fits_below_8 : callable nat := λ w xv v k,
  match xv with
  | VDataset d =>
      if bool_decide (batch_size_of d ∈ [Some 32; Some 16; Some 8])
      then (S w, inl oom)
      else (S w, inr (VStr "history"))
  | _ => (S w, inr (VStr "history"))
  end.

Definition always_oom : callable nat := λ w xv v k, (S w, inl oom).

Definition type_error : exn := Exn (OtherError "TypeError") "bad argument".

Definition always_type_error : callable nat :=
  λ w xv v k, (S w, inl type_error).

Definition train : Dataset := Ds [1; 2; 3; 4; 5; 6; 7; 8; 9; 10] [32].
Definition held_out : Dataset := Ds [11; 12; 13] [32].

Definition kwargs : gmap string value :=
  {[ "x" := VDataset train;
     "validation_data" := VDataset held_out;
     "epochs" := VInt 3 ]}.

Definition env0 : Env nat := MkEnv 0%nat [] [].

Definition locals (bs : Z) : Locals :=
  MkLocals bs (VDataset train) (VDataset held_out) {[ "epochs" := VInt 3 ]}.

(** A container that records what is registered in it. *)
Definition registry := list (string * string * gmap string value).

#[global] Instance registry_api : HyperParameters registry := {|
  has_method _ attr :=
    bool_decide (attr ∈ ["Int"; "Float"; "Choice"; "Boolean"; "Fixed"]);
  invoke r attr name kw :=
    ((attr, name, kw) :: r, inr (default VNone (kw !! "default"))) |}.

Definition units : HyperParameter :=
  MkHP "Int" "units"
    {[ "name" := VStr "units"; "conditions" := VNone;
       "min_value" := VInt 32; "max_value" := VInt 512;
       "default" := VInt 32 ]}.

End Samples.

(** ** contain_instance *)

Module Contain.

Section ContainInstance.
Context {Obj Ty : Type}.

(** The builtin [isinstance(obj, classinfo)]: it answers, or raises a
    TypeError when [classinfo] is not something to test against. *)
Variable isinstance : Obj → Ty → exn + bool.

(** [[isinstance(instance, instance_type) for instance in instance_list]]:
    the list is built in full, element by element, before [any] sees it. *)
Fixpoint isinstance_each (instance_list : list Obj) (instance_type : Ty)
  : exn + list bool :=
  match instance_list with
  | [] => inr []
  | instance :: rest =>
      match isinstance instance instance_type with
      | inl e => inl e
      | inr b =>
          match isinstance_each rest instance_type with
          | inl e => inl e
          | inr bs => inr (b :: bs)
          end
      end
  end.

(** The builtin [any] on a list of booleans. *)
Definition any (bs : list bool) : bool := existsb id bs.

Definition contain_instance (instance_list : list Obj) (instance_type : Ty)
  : Result bool :=
  match isinstance_each instance_list instance_type with
  | inl e => Raises e
  | inr bs => Normal (any bs)
  end.

End ContainInstance.

End Contain.

(** ** evaluate_, predict_ and fit_with_adaptive_batch_size *)

Module Wrappers.
Import Adaptive.

Section Models.
Context {World : Type}.

(** A Keras model, as the three wrappers use it.  [evaluate] and
    [predict] take the dataset, the value of [verbose] and the other
    keyword arguments; [fit] takes keyword arguments only. *)
Record Model := MkModel {
  evaluate : World → value → value → gmap string value → World * (exn + value);
  predict : World → value → value → gmap string value → World * (exn + value);
  fit : World → gmap string value → World * (exn + value) }.

(** A call that passes positional arguments for the parameters [names]
    and the keywords [keywords]: a keyword that has the name of one of
    these parameters is a second value for it, and the call raises
    TypeError before the body of the function runs. *)
Definition multiple_values (function : string) (names : list string)
    (keywords : gmap string value) : option exn :=
  match filter (λ n, is_Some (keywords !! n)) names with
  | n :: _ =>
      Some (Exn (OtherError "TypeError")
              (function +:+ "() got multiple values for argument '"
               +:+ n +:+ "'"))
  | [] => None
  end.

(** How the keywords of a call are bound by the signature
    [(model, batch_size, verbose=1, **fit_kwargs)]: [verbose] takes the
    keyword of that name, or 1, and [fit_kwargs] the rest. *)
Definition bind_verbose (keywords : gmap string value)
  : value * gmap string value :=
  (default (VInt 1) (keywords !! "verbose"), delete "verbose" keywords).

(** In the three wrappers [model] and [batch_size] are the values bound
    to the first two parameters and [keywords] the other keywords of the
    call.  The body is the call of [run_with_adaptive_batch_size] with
    [batch_size] and the lambda as positional arguments and [fit_kwargs]
    as keywords. *)
Definition evaluate_with_adaptive_batch_size (fuel : nat) (model : Model)
    (batch_size : Z) (keywords : gmap string value) (env : Env World)
  : Outcome * option Locals * Env World :=
  match multiple_values "evaluate_with_adaptive_batch_size"
          ["model"; "batch_size"] keywords with
  | Some e => (Raised e, None, env)
  | None =>
      let '(verbose, fit_kwargs) := bind_verbose keywords in
      match multiple_values "run_with_adaptive_batch_size"
              ["batch_size"; "func"] fit_kwargs with
      | Some e => (Raised e, None, env)
      | None =>
          run_with_adaptive_batch_size fuel batch_size
            (λ w x validation_data kwargs, evaluate model w x verbose kwargs)
            fit_kwargs env
      end
  end.

Definition predict_with_adaptive_batch_size (fuel : nat) (model : Model)
    (batch_size : Z) (keywords : gmap string value) (env : Env World)
  : Outcome * option Locals * Env World :=
  match multiple_values "predict_with_adaptive_batch_size"
          ["model"; "batch_size"] keywords with
  | Some e => (Raised e, None, env)
  | None =>
      let '(verbose, fit_kwargs) := bind_verbose keywords in
      match multiple_values "run_with_adaptive_batch_size"
              ["batch_size"; "func"] fit_kwargs with
      | Some e => (Raised e, None, env)
      | None =>
          run_with_adaptive_batch_size fuel batch_size
            (λ w x validation_data kwargs, predict model w x verbose kwargs)
            fit_kwargs env
      end
  end.

(** What [fit_with_adaptive_batch_size] gives back: the pair of the model
    it was given and the history, or what the retry loop raised. *)
Inductive FitOutcome :=
| FitReturned (model : Model) (history : value)
| FitRaised (e : exn)
| FitOutOfFuel.

(** The lambda that hands all its keyword arguments on to [model.fit];
    it is called with [x=...], [validation_data=...] and the other
    keyword arguments. *)
Definition fit_callable (model : Model) : callable World :=
  λ w x validation_data kwargs,
    fit model w (<["x" := x]> (<["validation_data" := validation_data]> kwargs)).

Definition fit_with_adaptive_batch_size (fuel : nat) (model : Model)
    (batch_size : Z) (fit_kwargs : gmap string value) (env : Env World)
  : FitOutcome * option Locals * Env World :=
  match multiple_values "fit_with_adaptive_batch_size"
          ["model"; "batch_size"] fit_kwargs with
  | Some e => (FitRaised e, None, env)
  | None =>
      match multiple_values "run_with_adaptive_batch_size"
              ["batch_size"; "func"] fit_kwargs with
      | Some e => (FitRaised e, None, env)
      | None =>
          let '(history, l, env') :=
            run_with_adaptive_batch_size fuel batch_size (fit_callable model)
              fit_kwargs env in
          (match history with
           | Returned h => FitReturned model h
           | Raised e => FitRaised e
           | OutOfFuel => FitOutOfFuel
           end, l, env')
      end
  end.

(** The keywords with which a wrapper can be called: none of them has
    the name of a parameter that is filled positionally, in the call of
    the wrapper or in its call of [run_with_adaptive_batch_size]. *)
Definition free_keywords (keywords : gmap string value) : Prop :=
  keywords !! "model" = None
  ∧ keywords !! "batch_size" = None
  ∧ keywords !! "func" = None.

End Models.

Arguments Model : clear implicits.
Arguments FitOutcome : clear implicits.

End Wrappers.

(** ** serialize_keras_object, deserialize_keras_object *)

Module Serialize.

Section Shims.
Context {Obj Config : Type}.

(** One serialization namespace of the framework: its
    [serialize_keras_object] and its [deserialize_keras_object], the
    latter with its four positional parameters. *)
Record Namespace := MkNamespace {
  ns_serialize : Obj → exn + Config;
  ns_deserialize : Config → value → value → value → exn + Obj }.

(** [tf.keras.utils]: its own two functions, and the namespace [legacy]
    when it has that attribute. *)
Record KerasUtils := MkUtils {
  legacy : option Namespace;
  current : Namespace }.

Definition serialize_keras_object (utils : KerasUtils) (obj : Obj)
  : exn + Config :=
  match legacy utils with
  | Some ns => ns_serialize ns obj
  | None => ns_serialize (current utils) obj
  end.

Definition deserialize_keras_object (utils : KerasUtils) (config : Config)
    (module_objects custom_objects printable_module_name : value)
  : exn + Obj :=
  match legacy utils with
  | Some ns =>
      ns_deserialize ns config custom_objects module_objects
        printable_module_name
  | None =>
      ns_deserialize (current utils) config custom_objects module_objects
        printable_module_name
  end.

End Shims.

Arguments Namespace : clear implicits.
Arguments KerasUtils : clear implicits.

End Serialize.

(** ** Vocabulary for further statements *)

Module Letters.
Import Re.

(** A name without its separators. *)
Fixpoint without_separators (s : chars) : chars :=
  match s with
  | [] => []
  | c :: rest =>
      if Ascii.eqb c "_" then without_separators rest
      else c :: without_separators rest
  end.

(** A name written in ASCII. *)
Definition ascii_only (s : chars) : Prop :=
  Forall (λ c, (N_of_ascii c < 128)%N) s.

End Letters.

(** ** Further sample inputs *)

Module MoreSamples.
Import Adaptive Wrappers Serialize.

(** Objects given by the names of the classes they are instances of;
    something to test against is a class name, or is not a class. *)
Definition isinstance (obj : list string) (classinfo : option string)
  : exn + bool :=
  match classinfo with
  | Some cls => inr (bool_decide (cls ∈ obj))
  | None =>
      inl (Exn (OtherError "TypeError")
             "isinstance() arg 2 must be a type, a tuple of types, or a union")
  end.

(** A callable that counts its invocations and returns. *)
Definition succeeds : callable nat :=
  λ w xv v k, (S w, inr (VStr "history")).

(** A model whose methods count their invocations and echo what they
    are given. *)
Definition echo : Model nat := {|
  evaluate w xv verbose kw := (S w, inr verbose);
  predict w xv verbose kw := (S w, inr xv);
  fit w kw := (S w, inr (default VNone (kw !! "validation_data"))) |}.

Definition array : value := VObject 7.

(** A namespace that tags what it writes and reads back only what
    carries its own tag. *)
Definition namespace (tag : nat) : Namespace nat (nat * nat) := {|
  ns_serialize obj := inr (tag, obj);
  ns_deserialize config custom_objects module_objects printable_module_name :=
    if bool_decide (config.1 = tag) then inr config.2
    else inl (Exn ValueError "Unknown object") |}.

Definition with_legacy : KerasUtils nat (nat * nat) :=
  MkUtils (Some (namespace 1)) (namespace 2).

Definition no_conditions : HP.HyperParameter :=
  HP.MkHP "Int" "units" {[ "name" := VStr "units"; "default" := VInt 32 ]}.

Definition unknown_class : HP.HyperParameter :=
  HP.MkHP "Spline" "curve" {[ "name" := VStr "curve"; "conditions" := VNone ]}.

End MoreSamples.

(** * Properties *)

(** ** The retry loop *)

Module AdaptiveFacts.
Import Adaptive.

Section Body.
Context {World : Type}.
Implicit Types (func : callable World) (l : Locals) (env : Env World).

Lemma loop_body_success func l env w history :
  func (world env) (x l) (validation_data l) (fit_kwargs l)
    = (w, inr history) →
  loop_body func l env = (Break history, l, invoked l env w).
Proof. intros Hf. unfold loop_body. by rewrite Hf. Qed.

Lemma loop_body_other_error func l env w e :
  func (world env) (x l) (validation_data l) (fit_kwargs l) = (w, inl e) →
  is_resource_exhausted e = false →
  loop_body func l env = (Raise e, l, invoked l env w).
Proof. intros Hf He. unfold loop_body. by rewrite Hf, He. Qed.

Lemma loop_body_floor func l env w e :
  func (world env) (x l) (validation_data l) (fit_kwargs l) = (w, inl e) →
  is_resource_exhausted e = true →
  batch_size l = 1 →
  loop_body func l env = (Raise e, l, invoked l env w).
Proof.
  intros Hf He Hbs. unfold loop_body. rewrite Hf, He.
  by destruct (Z.eqb_spec (batch_size l) 1).
Qed.

Lemma loop_body_retry func l env w e x' v' :
  func (world env) (x l) (validation_data l) (fit_kwargs l) = (w, inl e) →
  is_resource_exhausted e = true →
  batch_size l ≠ 1 →
  unbatch_batch (x l) (batch_size l `div` 2) = inr x' →
  (if is_none (validation_data l) then v' = validation_data l
   else unbatch_batch (validation_data l) (batch_size l `div` 2) = inr v') →
  loop_body func l env
  = (Continue, halved l x' v',
     announced (invoked l env w) (batch_size l `div` 2)).
Proof.
  intros Hf He Hbs Hx Hv. unfold loop_body. rewrite Hf, He.
  destruct (Z.eqb_spec (batch_size l) 1) as [|_]; [done|].
  cbn [x validation_data batch_size fit_kwargs]. rewrite Hx.
  destruct (is_none (validation_data l)); [by subst v'|].
  by rewrite Hv.
Qed.
End Body.

(** *** Halving *)

Lemma log2_half b : 2 ≤ b → Z.log2 (b `div` 2) = Z.log2 b - 1.
Proof.
  intros Hb.
  replace (b `div` 2) with (b ≫ 1)
    by (rewrite Z.shiftr_div_pow2 by lia; by rewrite Z.pow_1_r).
  rewrite Z.log2_shiftr by lia.
  assert (1 ≤ Z.log2 b) by (apply Z.log2_le_pow2; simpl; lia). lia.
Qed.

Lemma halvings_length n b : length (halvings n b) = n.
Proof. revert b. induction n as [|n IH]; intros b; simpl; auto. Qed.

(** As long as the numbers stay positive, each one is below the one
    before it. *)
Lemma halvings_decreasing n b :
  0 < b → (n ≤ Z.to_nat (Z.log2 b) + 1)%nat → Sorted Z.gt (halvings n b).
Proof.
  revert b. induction n as [|n IH]; intros b Hb Hn; simpl.
  { constructor. }
  destruct n as [|n].
  { simpl. repeat constructor. }
  assert (1 ≤ Z.log2 b) by lia.
  assert (2 ≤ b) by (pose proof (proj2 (Z.log2_null b)); lia).
  constructor.
  - apply IH; [apply Z.div_str_pos; lia|]. rewrite log2_half by lia. lia.
  - simpl. constructor. apply Z.lt_gt, Z.div_lt; lia.
Qed.

(** *** One pass through the body *)

Section Pass.
Context {World : Type}.
Implicit Types (func : callable World) (l : Locals) (env : Env World).

(** Every pass invokes [func] exactly once, with the current locals. *)
Lemma loop_body_calls func l env :
  calls (loop_body func l env).2
  = calls env ++ [MkCall (batch_size l) (x l) (validation_data l)].
Proof.
  unfold loop_body.
  destruct (func _ _ _ _) as [w [e|h]]; [|done].
  destruct (is_resource_exhausted e); [|done].
  destruct (batch_size l =? 1); [done|].
  cbn [x validation_data batch_size fit_kwargs calls].
  destruct (unbatch_batch (x l) _); [done|].
  destruct (is_none (validation_data l)); [done|].
  by destruct (unbatch_batch (validation_data l) _).
Qed.

(** A pass that goes round again has halved a batch size above 1. *)
Lemma loop_body_continue func l env l' env' :
  loop_body func l env = (Continue, l', env') →
  batch_size l ≠ 1 ∧ batch_size l' = batch_size l `div` 2.
Proof.
  unfold loop_body.
  destruct (func _ _ _ _) as [w [e|h]]; [|done].
  destruct (is_resource_exhausted e); [|done].
  destruct (Z.eqb_spec (batch_size l) 1); [done|].
  cbn [x validation_data batch_size fit_kwargs calls].
  destruct (unbatch_batch (x l) _); [done|].
  destruct (is_none (validation_data l)).
  { intros [= <- <-]. done. }
  destruct (unbatch_batch (validation_data l) _); [done|].
  intros [= <- <-]. done.
Qed.

Lemma rebatchable_unbatch_batch v n :
  rebatchable v →
  ∃ v', unbatch_batch v n = inr v' ∧ rebatchable v'.
Proof.
  intros (d & -> & Hd). unfold unbatch_batch, unbatch.
  destruct (ds_batching d) as [|b bs] eqn:E; [done|].
  eexists. split; [done|]. eexists. split; [done|]. done.
Qed.

(** The loop always ends within [log2 batch_size + 1] passes, and the
    batch sizes of its invocations are the successive halvings. *)
Lemma while_loop_ends func fuel l env :
  0 < batch_size l →
  (Z.to_nat (Z.log2 (batch_size l)) < fuel)%nat →
  ∃ o l' env' new,
    while_loop func fuel l env = (o, l', env')
    ∧ o ≠ OutOfFuel
    ∧ calls env' = calls env ++ new
    ∧ (1 ≤ length new ≤ Z.to_nat (Z.log2 (batch_size l)) + 1)%nat
    ∧ call_batch_size <$> new = halvings (length new) (batch_size l).
Proof.
  revert l env. induction fuel as [|fuel IH]; intros l env Hbs Hfuel.
  { lia. }
  cbn [while_loop].
  destruct (Z.ltb_spec 0 (batch_size l)) as [_|]; [|lia].
  pose proof (loop_body_calls func l env) as Hcalls.
  pose proof (loop_body_continue func l env) as Hcont.
  destruct (loop_body func l env) as [[[| h | e] l1] env1];
    cbn [snd] in Hcalls.
  - destruct (Hcont l1 env1 eq_refl) as [Hne Hhalf].
    assert (2 ≤ batch_size l) by lia.
    destruct (IH l1 env1) as (o & l' & env' & new & Hw & Ho & Hc & Hn & Hb).
    { rewrite Hhalf. apply Z.div_str_pos. lia. }
    { rewrite Hhalf, log2_half by lia.
      assert (1 ≤ Z.log2 (batch_size l))
        by (apply Z.log2_le_pow2; simpl; lia).
      lia. }
    exists o, l', env',
      (MkCall (batch_size l) (x l) (validation_data l) :: new).
    rewrite Hhalf, log2_half in Hn by lia.
    assert (1 ≤ Z.log2 (batch_size l))
      by (apply Z.log2_le_pow2; simpl; lia).
    split_and!; [done|done| |simpl; lia|simpl; lia|].
    + rewrite Hc, Hcalls, <- app_assoc. done.
    + cbn [fmap list_fmap length halvings call_batch_size].
      fold (fmap (M:=list) call_batch_size new).
      rewrite Hb, Hhalf. done.
  - exists (Returned h), l1, env1,
      [MkCall (batch_size l) (x l) (validation_data l)].
    split_and!; [done|done|done|simpl; lia|simpl; lia|done].
  - exists (Raised e), l1, env1,
      [MkCall (batch_size l) (x l) (validation_data l)].
    split_and!; [done|done|done|simpl; lia|simpl; lia|done].
Qed.

(** Fuel beyond what the loop needs does not change its result. *)
Lemma while_loop_fuel_mono func fuel extra l env :
  (while_loop func fuel l env).1.1 ≠ OutOfFuel →
  while_loop func (fuel + extra) l env = while_loop func fuel l env.
Proof.
  revert l env. induction fuel as [|fuel IH]; intros l env.
  - cbn [while_loop]. destruct (0 <? batch_size l) eqn:E; [done|].
    intros _. destruct extra; cbn [while_loop Nat.add]; by rewrite E.
  - cbn [while_loop Nat.add]. destruct (0 <? batch_size l); [|done].
    destruct (loop_body func l env) as [[[| h | e] l1] env1]; [|done..].
    apply IH.
Qed.

(** When [func] keeps failing for lack of memory on datasets that can
    be re-batched, the loop ends by re-raising at batch size 1. *)
Lemma while_loop_persistent_failure func fuel l env :
  (∀ w xv v k, ∃ w' e,
     func w xv v k = (w', inl e) ∧ is_resource_exhausted e = true) →
  0 < batch_size l →
  (Z.to_nat (Z.log2 (batch_size l)) < fuel)%nat →
  rebatchable (x l) →
  validation_data l = VNone ∨ rebatchable (validation_data l) →
  ∃ e l' env',
    while_loop func fuel l env = (Raised e, l', env')
    ∧ is_resource_exhausted e = true
    ∧ batch_size l' = 1
    ∧ last (call_batch_size <$> calls env') = Some 1.
Proof.
  intros Hall. revert l env.
  induction fuel as [|fuel IH]; intros l env Hbs Hfuel Hx Hv.
  { lia. }
  cbn [while_loop].
  destruct (Z.ltb_spec 0 (batch_size l)) as [_|]; [|lia].
  destruct (Hall (world env) (x l) (validation_data l) (fit_kwargs l))
    as (w & e & Hf & He).
  destruct (decide (batch_size l = 1)) as [H1|H1].
  { rewrite (loop_body_floor func l env w e Hf He H1).
    exists e, l, (invoked l env w). split_and!; try done.
    unfold invoked. cbn [calls]. rewrite fmap_app.
    cbn [fmap list_fmap]. rewrite last_snoc.
    cbn [call_batch_size]. by rewrite H1. }
  destruct (rebatchable_unbatch_batch (x l) (batch_size l `div` 2) Hx)
    as (x' & Hx' & Hrx').
  assert (∃ v', (if is_none (validation_data l)
                 then v' = validation_data l
                 else unbatch_batch (validation_data l)
                        (batch_size l `div` 2) = inr v')
                ∧ (v' = VNone ∨ rebatchable v')) as (v' & Hv' & Hrv').
  { destruct Hv as [Hv|Hv].
    - exists VNone. rewrite Hv. simpl. auto.
    - destruct (rebatchable_unbatch_batch _ (batch_size l `div` 2) Hv)
        as (v' & Hv' & Hrv').
      exists v'. destruct Hv as (d & Ed & _). rewrite Ed in *.
      simpl. auto. }
  rewrite (loop_body_retry func l env w e x' v' Hf He H1 Hx' Hv').
  assert (2 ≤ batch_size l) by lia.
  apply IH; cbn [halved batch_size x validation_data]; try done.
  - apply Z.div_str_pos. lia.
  - rewrite log2_half by lia.
    assert (1 ≤ Z.log2 (batch_size l))
      by (apply Z.log2_le_pow2; simpl; lia).
    lia.
Qed.
End Pass.

(** C2.  A resource-exhaustion error raised while the batch size is 1
    leaves the loop as the same exception object, after that single
    invocation and without any announcement of a smaller batch size; so
    a call with initial batch size 1 and a [func] that always raises
    resource exhaustion invokes [func] once and raises what it raised. *)
Theorem floor_reraises_unchanged {World} (func : callable World) :
  (∀ l env w e fuel,
     batch_size l = 1 →
     func (world env) (x l) (validation_data l) (fit_kwargs l) = (w, inl e) →
     is_resource_exhausted e = true →
     while_loop func (S fuel) l env
     = (Raised e, l,
        MkEnv w (stdout env)
          (calls env ++ [MkCall 1 (x l) (validation_data l)])))
  ∧ (∀ kwargs env fuel x0,
       kwargs !! "x" = Some x0 →
       (∀ w xv v k, ∃ w' e,
          func w xv v k = (w', inl e) ∧ is_resource_exhausted e = true) →
       ∃ w e l,
         func (world env) (x l) (validation_data l) (fit_kwargs l)
           = (w, inl e)
         ∧ is_resource_exhausted e = true
         ∧ x l = x0 ∧ batch_size l = 1
         ∧ run_with_adaptive_batch_size (S fuel) 1 func kwargs env
           = (Raised e, Some l,
              MkEnv w (stdout env)
                (calls env ++ [MkCall 1 x0 (validation_data l)]))).
Proof.
  assert (Hloop : ∀ l env w e fuel,
     batch_size l = 1 →
     func (world env) (x l) (validation_data l) (fit_kwargs l) = (w, inl e) →
     is_resource_exhausted e = true →
     while_loop func (S fuel) l env = (Raised e, l, invoked l env w)).
  { intros l env w e fuel Hbs Hf He. cbn [while_loop]. rewrite Hbs.
    change (0 <? 1) with true. cbv iota.
    by rewrite (loop_body_floor func l env w e Hf He Hbs). }
  split.
  { intros l env w e fuel Hbs Hf He.
    rewrite (Hloop l env w e fuel Hbs Hf He). unfold invoked.
    by rewrite Hbs. }
  intros kwargs env fuel x0 Hx Hall.
  unfold run_with_adaptive_batch_size. rewrite Hx.
  set (p := match delete "x" kwargs !! "validation_data" with
            | Some v => (v, delete "validation_data" (delete "x" kwargs))
            | None => (VNone, delete "x" kwargs)
            end).
  destruct p as [v0 kw].
  destruct (Hall (world env) x0 v0 kw) as (w & e & Hf & He).
  exists w, e, (MkLocals 1 x0 v0 kw). split_and!; try done.
  by rewrite (Hloop (MkLocals 1 x0 v0 kw) env w e fuel eq_refl Hf He).
Qed.

Lemma floor_reraises_unchanged_witness :
  ∃ w e l,
    Samples.always_oom 0%nat (x l) (validation_data l) (fit_kwargs l)
      = (w, inl e)
    ∧ is_resource_exhausted e = true
    ∧ x l = VDataset Samples.train ∧ batch_size l = 1
    ∧ run_with_adaptive_batch_size 1 1 Samples.always_oom Samples.kwargs
        Samples.env0
      = (Raised e, Some l,
         MkEnv w [] [MkCall 1 (VDataset Samples.train) (validation_data l)]).
Proof.
  apply (proj2 (floor_reraises_unchanged Samples.always_oom)
           Samples.kwargs Samples.env0 0%nat (VDataset Samples.train)).
  - vm_compute. reflexivity.
  - intros w xv v k. exists (S w), Samples.oom. split; reflexivity.
Defined.

(** C4.  An exception of [func] that is not a resource-exhaustion error
    leaves the call at once, whatever the batch size: one invocation,
    the same exception object, the locals (the batch size among them)
    and the standard output as they were. *)
Theorem other_errors_propagate {World} (func : callable World)
    (l : Locals) (env : Env World) (w : World) (e : exn)
    (fuel : nat) :
  0 < batch_size l →
  func (world env) (x l) (validation_data l) (fit_kwargs l) = (w, inl e) →
  is_resource_exhausted e = false →
  while_loop func (S fuel) l env
  = (Raised e, l,
     MkEnv w (stdout env)
       (calls env ++ [MkCall (batch_size l) (x l) (validation_data l)])).
Proof.
  intros Hbs Hf He. cbn [while_loop].
  destruct (Z.ltb_spec 0 (batch_size l)) as [_|]; [|lia].
  by rewrite (loop_body_other_error func l env w e Hf He).
Qed.

Lemma other_errors_propagate_witness :
  while_loop Samples.always_type_error 1 (Samples.locals 16) Samples.env0
  = (Raised Samples.type_error, Samples.locals 16,
     MkEnv 1%nat []
       [MkCall 16 (VDataset Samples.train) (VDataset Samples.held_out)]).
Proof.
  apply (other_errors_propagate Samples.always_type_error
           (Samples.locals 16) Samples.env0 1%nat Samples.type_error 0).
  - reflexivity.
  - reflexivity.
  - reflexivity.
Defined.

(** C3.  From a positive batch size the loop ends, within
    [log2 batch_size + 1] invocations of [func]: the batch sizes of the
    invocations are the successive halvings of the initial one, a
    strictly decreasing sequence; and if [func] keeps raising resource
    exhaustion, the last invocation is at batch size 1 and its error is
    what the loop raises. *)
Theorem retry_loop_terminates {World} (func : callable World)
    (l : Locals) (env : Env World) (fuel : nat) :
  0 < batch_size l →
  (Z.to_nat (Z.log2 (batch_size l)) < fuel)%nat →
  ∃ o l' env' new,
    while_loop func fuel l env = (o, l', env')
    ∧ o ≠ OutOfFuel
    ∧ calls env' = calls env ++ new
    ∧ (1 ≤ length new ≤ Z.to_nat (Z.log2 (batch_size l)) + 1)%nat
    ∧ call_batch_size <$> new = halvings (length new) (batch_size l)
    ∧ Sorted Z.gt (call_batch_size <$> new)
    ∧ ((∀ w xv v k, ∃ w' e,
          func w xv v k = (w', inl e) ∧ is_resource_exhausted e = true) →
       rebatchable (x l) →
       validation_data l = VNone ∨ rebatchable (validation_data l) →
       ∃ e, o = Raised e ∧ is_resource_exhausted e = true
            ∧ batch_size l' = 1
            ∧ last (call_batch_size <$> new) = Some 1).
Proof.
  intros Hbs Hfuel.
  destruct (while_loop_ends func fuel l env Hbs Hfuel)
    as (o & l' & env' & new & Hw & Ho & Hc & Hn & Hb).
  exists o, l', env', new. split_and!; try done; try lia.
  - rewrite Hb. apply halvings_decreasing; lia.
  - intros Hall Hx Hv.
    destruct (while_loop_persistent_failure func fuel l env Hall Hbs Hfuel
                Hx Hv) as (e & l'' & env'' & Hw' & He & Hl & Hlast).
    rewrite Hw in Hw'. injection Hw' as -> -> ->.
    exists e. split_and!; try done.
    rewrite Hc, fmap_app, last_app in Hlast.
    destruct new as [|c new]; [simpl in Hn; lia|].
    destruct (last (call_batch_size <$> c :: new)) eqn:E; [done|].
    apply last_None in E. done.
Qed.

Lemma retry_loop_terminates_witness :
  ∃ o l' env' new,
    while_loop Samples.always_oom 3 (Samples.locals 5) Samples.env0
      = (o, l', env')
    ∧ o ≠ OutOfFuel
    ∧ calls env' = calls Samples.env0 ++ new
    ∧ (1 ≤ length new ≤ Z.to_nat (Z.log2 5) + 1)%nat
    ∧ call_batch_size <$> new = halvings (length new) 5
    ∧ Sorted Z.gt (call_batch_size <$> new)
    ∧ ((∀ w xv v k, ∃ w' e,
          Samples.always_oom w xv v k = (w', inl e)
          ∧ is_resource_exhausted e = true) →
       rebatchable (VDataset Samples.train) →
       VDataset Samples.held_out = VNone
       ∨ rebatchable (VDataset Samples.held_out) →
       ∃ e, o = Raised e ∧ is_resource_exhausted e = true
            ∧ batch_size l' = 1
            ∧ last (call_batch_size <$> new) = Some 1).
Proof.
  apply (retry_loop_terminates Samples.always_oom (Samples.locals 5)
           Samples.env0 3).
  - reflexivity.
  - vm_compute. lia.
Defined.

(** C1.  [func] raises resource exhaustion exactly on datasets batched
    by 32, 16 or 8 and returns on datasets batched by 4.  Called with
    batch size 32 on a dataset batched by 32 and a batched validation
    dataset, the function invokes [func] four times: on the datasets as
    given, then on both re-batched by 16, by 8 and by 4; it prints the
    three new batch sizes and returns what the fourth invocation
    returned. *)
Theorem retries_32_16_8_then_4 {World} (func : callable World)
    (kwargs : gmap string value) (env : Env World)
    (rows vrows bx bv : list Z) (b : Z) (fuel : nat) :
  (∀ w d v k,
     (∃ w' e, func w (VDataset d) v k = (w', inl e)
              ∧ is_resource_exhausted e = true)
     ↔ batch_size_of d ∈ [Some 32; Some 16; Some 8]) →
  (∀ w d v k,
     batch_size_of d = Some 4 →
     ∃ w' history, func w (VDataset d) v k = (w', inr history)) →
  kwargs !! "x" = Some (VDataset (Ds rows (32 :: bx))) →
  kwargs !! "validation_data" = Some (VDataset (Ds vrows (b :: bv))) →
  (4 ≤ fuel)%nat →
  let kw := delete "validation_data" (delete "x" kwargs) in
  let xs n := VDataset (Ds rows (n :: bx)) in
  let vs n := VDataset (Ds vrows (n :: bv)) in
  ∃ w1 w2 w3 w4 e1 e2 e3 history,
    func (world env) (xs 32) (vs b) kw = (w1, inl e1)
    ∧ func w1 (xs 16) (vs 16) kw = (w2, inl e2)
    ∧ func w2 (xs 8) (vs 8) kw = (w3, inl e3)
    ∧ func w3 (xs 4) (vs 4) kw = (w4, inr history)
    ∧ run_with_adaptive_batch_size fuel 32 func kwargs env
      = (Returned history,
         Some (MkLocals 4 (xs 4) (vs 4) kw),
         MkEnv w4
           (stdout env
            ++ ["Not enough memory, reduce batch size to 16.";
                "Not enough memory, reduce batch size to 8.";
                "Not enough memory, reduce batch size to 4."])
           (calls env
            ++ [MkCall 32 (xs 32) (vs b); MkCall 16 (xs 16) (vs 16);
                MkCall 8 (xs 8) (vs 8); MkCall 4 (xs 4) (vs 4)])).
Proof.
  intros Hfail Hok Hx Hv Hfuel kw xs vs.
  assert (Hraise : ∀ w n v, n = 32 ∨ n = 16 ∨ n = 8 →
            ∃ w' e, func w (xs n) v kw = (w', inl e)
                    ∧ is_resource_exhausted e = true).
  { intros w n v Hn. apply Hfail. unfold batch_size_of. simpl.
    destruct Hn as [-> | [-> | ->]]; repeat constructor. }
  destruct (Hraise (world env) 32 (vs b)) as (w1 & e1 & Hf1 & He1);
    [auto|].
  destruct (Hraise w1 16 (vs 16)) as (w2 & e2 & Hf2 & He2); [auto|].
  destruct (Hraise w2 8 (vs 8)) as (w3 & e3 & Hf3 & He3); [auto|].
  destruct (Hok w3 (Ds rows (4 :: bx)) (vs 4) kw eq_refl)
    as (w4 & history & Hf4).
  exists w1, w2, w3, w4, e1, e2, e3, history.
  split_and!; try done.
  unfold run_with_adaptive_batch_size. rewrite Hx.
  rewrite lookup_delete_ne, Hv by done.
  do 4 (destruct fuel as [|fuel]; [lia|]).
  cbn [while_loop batch_size]. change (0 <? 32) with true. cbv iota.
  erewrite loop_body_retry; [|exact Hf1|exact He1|done|done|done].
  cbn [while_loop batch_size halved]. cbv iota.
  change (32 `div` 2) with 16. change (0 <? 16) with true. cbv iota.
  erewrite loop_body_retry; [|exact Hf2|exact He2|done|done|done].
  cbn [while_loop batch_size halved]. cbv iota.
  change (16 `div` 2) with 8. change (0 <? 8) with true. cbv iota.
  erewrite loop_body_retry; [|exact Hf3|exact He3|done|done|done].
  cbn [while_loop batch_size halved]. cbv iota.
  change (8 `div` 2) with 4. change (0 <? 4) with true. cbv iota.
  erewrite loop_body_success; [|exact Hf4].
  unfold invoked, announced.
  cbn [world stdout calls batch_size x validation_data fit_kwargs].
  rewrite <- !app_assoc. done.
Qed.

Lemma retries_32_16_8_then_4_witness :
  let kw := delete "validation_data" (delete "x" Samples.kwargs) in
  let xs n := VDataset (Ds (ds_rows Samples.train) [n]) in
  let vs n := VDataset (Ds (ds_rows Samples.held_out) [n]) in
  ∃ w1 w2 w3 w4 e1 e2 e3 history,
    Samples.fits_below_8 0%nat (xs 32) (vs 32) kw = (w1, inl e1)
    ∧ Samples.fits_below_8 w1 (xs 16) (vs 16) kw = (w2, inl e2)
    ∧ Samples.fits_below_8 w2 (xs 8) (vs 8) kw = (w3, inl e3)
    ∧ Samples.fits_below_8 w3 (xs 4) (vs 4) kw = (w4, inr history)
    ∧ run_with_adaptive_batch_size 4 32 Samples.fits_below_8
        Samples.kwargs Samples.env0
      = (Returned history,
         Some (MkLocals 4 (xs 4) (vs 4) kw),
         MkEnv w4
           ([] ++ ["Not enough memory, reduce batch size to 16.";
                   "Not enough memory, reduce batch size to 8.";
                   "Not enough memory, reduce batch size to 4."])
           ([] ++ [MkCall 32 (xs 32) (vs 32); MkCall 16 (xs 16) (vs 16);
                   MkCall 8 (xs 8) (vs 8); MkCall 4 (xs 4) (vs 4)])).
Proof.
  apply (retries_32_16_8_then_4 Samples.fits_below_8 Samples.kwargs
           Samples.env0 (ds_rows Samples.train) (ds_rows Samples.held_out)
           [] [] 32 4).
  - intros w d v k. unfold Samples.fits_below_8.
    destruct (bool_decide_reflect
                (batch_size_of d ∈ [Some 32; Some 16; Some 8])) as [Hd|Hd].
    + split; [intros _; exact Hd|].
      intros _. exists (S w), Samples.oom. split; reflexivity.
    + split; [|intros Hin; destruct (Hd Hin)].
      intros (w' & e & Hf & _). discriminate Hf.
  - intros w d v k Hd. unfold Samples.fits_below_8. rewrite Hd.
    exists (S w), (VStr "history"). reflexivity.
  - vm_compute. reflexivity.
  - vm_compute. reflexivity.
  - lia.
Defined.

End AdaptiveFacts.

(** ** The name conversion *)

Module SnakeFacts.
Import Re Words.

(** *** Character classes *)

Ltac by_cases_on_char c :=
  destruct c as [[] [] [] [] [] [] [] []]; vm_compute; done.

Lemma upper_not_lower c : is_upper c = true → is_lower c = false.
Proof. by_cases_on_char c. Qed.

Lemma lower_char_not_upper c : is_upper (lower_char c) = false.
Proof. by_cases_on_char c. Qed.

Lemma lower_char_id c : is_upper c = false → lower_char c = c.
Proof. unfold lower_char. by intros ->. Qed.

Lemma mem_upper c : cset_mem (Ranges [("A", "Z")%char]) c = is_upper c.
Proof. unfold cset_mem, is_upper. simpl. by rewrite orb_false_r. Qed.

Lemma mem_lower c : cset_mem (Ranges [("a", "z")%char]) c = is_lower c.
Proof. unfold cset_mem, is_lower. simpl. by rewrite orb_false_r. Qed.

Lemma mem_lowdig c :
  cset_mem (Ranges [("a", "z"); ("0", "9")]%char) c = is_lowdig c.
Proof.
  unfold cset_mem, is_lowdig, is_lower, is_digit. simpl.
  by rewrite orb_false_r.
Qed.

(** *** Runs *)

Lemma run_after_run p s : run p s ++ after_run p s = s.
Proof.
  induction s as [|c s IH]; simpl; [done|].
  destruct (p c); simpl; [by rewrite IH | done].
Qed.

Lemma length_after_run p s :
  (length (run p s) + length (after_run p s))%nat = length s.
Proof. by rewrite <- length_app, run_after_run. Qed.

Lemma drop_run p s : drop (length (run p s)) s = after_run p s.
Proof. by rewrite <- (run_after_run p s) at 2; rewrite drop_app_length. Qed.

Lemma take_run p s : take (length (run p s)) s = run p s.
Proof. by rewrite <- (run_after_run p s) at 2; rewrite take_app_length. Qed.

Lemma after_run_ext p q s :
  (∀ c, p c = q c) → after_run p s = after_run q s.
Proof.
  intros Hpq. induction s as [|c s IH]; simpl; [done|].
  by rewrite Hpq, IH.
Qed.

(** *** The matcher on the two patterns *)

(** Greedy repetition in front of a continuation that accepts anything
    takes the whole run and never gives a character back. *)
Lemma match_star_total {R} cs inp (k : chars → option R) :
  (∀ rest, is_Some (k rest)) →
  match_star cs inp k = k (after_run (cset_mem cs) inp).
Proof.
  intros Hk. induction inp as [|c inp IH]; simpl; [done|].
  destruct (cset_mem cs c); [|done].
  rewrite IH. by destruct (Hk (after_run (cset_mem cs) inp)) as [r ->].
Qed.

Lemma match_at_pattern1 c u l rest :
  not_newline c = true → is_upper u = true → is_lowdig l = true →
  ∃ caps,
    match_at pattern1 (c :: u :: l :: rest)
    = Some (S (S (S (length (run is_lowdig rest)))), caps)
    ∧ expand template caps
      = c :: "_"%char :: u :: l :: run is_lowdig rest.
Proof.
  intros Hc Hu Hl. unfold match_at, pattern1.
  cbn [match_re]. change (cset_mem Dot c) with (not_newline c).
  rewrite Hc, mem_upper, Hu, mem_lowdig, Hl.
  rewrite match_star_total by eauto.
  pose proof (length_after_run is_lowdig rest) as Hlen.
  assert (Heq : after_run (cset_mem (Ranges [("a", "z"); ("0", "9")]%char)) rest
                = after_run is_lowdig rest).
  { apply after_run_ext, mem_lowdig. }
  eexists. split.
  - f_equal. f_equal. rewrite Heq. simpl. lia.
  - unfold expand, template. cbn [map].
    rewrite lookup_insert_eq, lookup_insert_ne, lookup_insert_eq by done.
    cbn [default concat]. rewrite app_nil_r.
    replace (length (c :: u :: l :: rest) - length (u :: l :: rest))%nat
      with 1%nat by (simpl; lia).
    rewrite Heq.
    replace (length (u :: l :: rest) - length (after_run is_lowdig rest))%nat
      with (S (S (length (run is_lowdig rest)))) by (simpl; lia).
    simpl. by rewrite take_run.
Qed.


Lemma match_at_pattern1_fails s :
  match s with
  | c :: u :: l :: _ => not_newline c && is_upper u && is_lowdig l
  | _ => false
  end = false →
  match_at pattern1 s = None.
Proof.
  unfold match_at, pattern1. cbn [match_re].
  destruct s as [|c [|u [|l rest]]]; intros Hs; [done|..].
  - change (cset_mem Dot c) with (not_newline c). by destruct (not_newline c).
  - change (cset_mem Dot c) with (not_newline c). rewrite mem_upper.
    by destruct (not_newline c), (is_upper u).
  - change (cset_mem Dot c) with (not_newline c).
    rewrite mem_upper, mem_lowdig.
    by destruct (not_newline c), (is_upper u), (is_lowdig l).
Qed.

Lemma match_at_pattern2 c u rest :
  is_lower c = true → is_upper u = true →
  ∃ caps,
    match_at pattern2 (c :: u :: rest) = Some (2%nat, caps)
    ∧ expand template caps = [c; "_"%char; u].
Proof.
  intros Hc Hu. unfold match_at, pattern2.
  cbn [match_re]. rewrite mem_lower, Hc, mem_upper, Hu.
  eexists. split.
  - f_equal. f_equal. simpl. lia.
  - unfold expand, template. cbn [map].
    rewrite lookup_insert_eq, lookup_insert_ne, lookup_insert_eq by done.
    cbn [default concat]. rewrite app_nil_r.
    replace (length (c :: u :: rest) - length (u :: rest))%nat
      with 1%nat by (simpl; lia).
    replace (length (u :: rest) - length rest)%nat
      with 1%nat by (simpl; lia).
    done.
Qed.

Lemma match_at_pattern2_fails s :
  match s with
  | c :: u :: _ => is_lower c && is_upper u
  | _ => false
  end = false →
  match_at pattern2 s = None.
Proof.
  unfold match_at, pattern2. cbn [match_re].
  destruct s as [|c [|u rest]]; intros Hs; [done|..].
  - rewrite mem_lower. by destruct (is_lower c).
  - rewrite mem_lower, mem_upper. by destruct (is_lower c), (is_upper u).
Qed.

(** *** Substitution *)

Lemma sub_from_skip r tpl n s :
  sub_from r tpl n s = sub_from r tpl 0 (drop n s).
Proof.
  revert n. induction s as [|c s IH]; intros [|n]; try done.
  cbn [sub_from drop]. apply IH.
Qed.

Lemma separate_words_in_word before s :
  separate_words before true s
  = run is_lowdig s ++ separate_words before false (after_run is_lowdig s).
Proof.
  induction s as [|c s IH]; [done|].
  cbn [run after_run]. destruct (is_lowdig c) eqn:E.
  - cbn [separate_words]. rewrite E. cbn [andb]. by rewrite IH.
  - cbn [separate_words]. rewrite E. done.
Qed.

(** The first substitution is the word scanner with any character but a
    newline allowed in front of the word. *)
Lemma sub_pattern1 s :
  sub pattern1 template s = separate_words not_newline false s.
Proof.
  unfold sub.
  induction s as [s IH] using (induction_ltof1 _ (@length ascii)).
  unfold ltof in IH.
  destruct s as [|c rest]; [done|].
  destruct (match c :: rest with
            | c :: u :: l :: _ => not_newline c && is_upper u && is_lowdig l
            | _ => false
            end) eqn:Hm.
  - destruct rest as [|u [|l rest']]; try done.
    apply andb_prop in Hm as [Hm Hl]. apply andb_prop in Hm as [Hc Hu].
    destruct (match_at_pattern1 c u l rest' Hc Hu Hl) as (caps & Hma & Hex).
    cbn [sub_from]. rewrite Hma, Hex.
    cbn [separate_words andb]. rewrite Hc, Hu, Hl. cbn [andb].
    rewrite sub_from_skip. cbn [drop]. rewrite drop_run.
    rewrite separate_words_in_word, IH.
    + done.
    + pose proof (length_after_run is_lowdig rest'). simpl. lia.
  - cbn [sub_from]. rewrite (match_at_pattern1_fails (c :: rest) Hm).
    rewrite IH by (simpl; lia).
    cbn [separate_words andb].
    destruct rest as [|u [|l rest']]; try done.
    by rewrite Hm.
Qed.

(** The second substitution puts a separator into every pair of a
    lowercase letter and an uppercase letter. *)
Lemma sub_pattern2 s : sub pattern2 template s = separate_humps s.
Proof.
  unfold sub.
  induction s as [s IH] using (induction_ltof1 _ (@length ascii)).
  unfold ltof in IH.
  destruct s as [|c rest]; [done|].
  destruct (match c :: rest with
            | c :: u :: _ => is_lower c && is_upper u
            | _ => false
            end) eqn:Hm.
  - destruct rest as [|u rest']; try done.
    apply andb_prop in Hm as [Hc Hu].
    destruct (match_at_pattern2 c u rest' Hc Hu) as (caps & Hma & Hex).
    cbn [sub_from]. rewrite Hma, Hex.
    rewrite sub_from_skip. cbn [drop]. rewrite drop_0.
    cbn [separate_humps]. rewrite Hc, Hu, (upper_not_lower u Hu).
    cbn [andb app]. by rewrite IH by (simpl; lia).
  - cbn [sub_from]. rewrite (match_at_pattern2_fails (c :: rest) Hm).
    rewrite IH by (simpl; lia).
    cbn [separate_humps].
    destruct rest as [|u rest']; [by rewrite andb_false_r|].
    by rewrite Hm.
Qed.

(** *** Strings without uppercase letters *)

Lemma lower_no_upper s : no_upper (lower s).
Proof. apply Forall_fmap, Forall_true. intros c. apply lower_char_not_upper. Qed.

Lemma lower_id s : no_upper s → lower s = s.
Proof.
  induction 1 as [|c s Hc _ IH]; [done|].
  unfold lower in *. cbn [map]. by rewrite IH, lower_char_id.
Qed.

Lemma separate_words_id before w s :
  no_upper s → separate_words before w s = s.
Proof.
  intros Hs. revert w. induction Hs as [|c s Hc Hs IH]; intros w; [done|].
  cbn [separate_words]. destruct (w && is_lowdig c); [by rewrite IH|].
  destruct Hs as [|u s Hu Hs]; [done|].
  destruct s as [|l s]; [by rewrite IH|].
  rewrite Hu, andb_false_r. cbn [andb]. by rewrite IH.
Qed.

Lemma separate_humps_id s : no_upper s → separate_humps s = s.
Proof.
  induction 1 as [|c s Hc Hs IH]; [done|].
  cbn [separate_humps]. rewrite IH.
  destruct Hs as [|u s Hu Hs]; [by rewrite andb_false_r|].
  by rewrite Hu, andb_false_r.
Qed.

Lemma to_snake_case_chars_scan s :
  to_snake_case_chars s
  = lower (separate_humps (separate_words not_newline false s)).
Proof.
  unfold to_snake_case_chars. by rewrite sub_pattern1, sub_pattern2.
Qed.

Example camel_case : to_snake_case "CamelCase" = "camel_case".
Proof. vm_compute. reflexivity. Qed.

Example abc_word : to_snake_case "ABCWord" = "abc_word".
Proof. vm_compute. reflexivity. Qed.

Example http_server : to_snake_case "HTTPServer2Go" = "http_server2go".
Proof. vm_compute. reflexivity. Qed.

Example response_code :
  to_snake_case "getHTTPResponseCode" = "get_http_response_code".
Proof. vm_compute. reflexivity. Qed.

Example after_separator : to_snake_case "a_Word" = "a__word".
Proof. vm_compute. reflexivity. Qed.

(** C6, as stated: with the first pass putting its separator only after
    a lowercase letter or a digit, "ABCWord" would come out without a
    separator, while the pattern puts one after the uppercase "C". *)
Lemma described_first_pass_differs :
  to_snake_case "ABCWord" = "abc_word"
  ∧ snake_case_as_described "ABCWord" = "abcword"
  ∧ ¬ (∀ name, to_snake_case name = snake_case_as_described name).
Proof.
  split_and!; [by vm_compute..|].
  intros Hall. specialize (Hall "ABCWord"). vm_compute in Hall.
  discriminate Hall.
Qed.

(** C6, amended.  [to_snake_case] is the two substitutions, in order,
    followed by lowercasing; the first substitution puts a separator
    between any character other than a newline and a capitalized word
    that follows it, the second between every lowercase letter and an
    uppercase letter right after it; "CamelCase" becomes "camel_case"
    and "ABCWord" becomes "abc_word". *)
Theorem to_snake_case_two_passes :
  (∀ name,
     to_snake_case name
     = String.string_of_list_ascii
         (lower (sub pattern2 template
                   (sub pattern1 template
                      (String.list_ascii_of_string name)))))
  ∧ (∀ s, sub pattern1 template s = separate_words not_newline false s)
  ∧ (∀ s, sub pattern2 template s = separate_humps s)
  ∧ (∀ name, to_snake_case name = snake_case_by_scanning name)
  ∧ to_snake_case "CamelCase" = "camel_case"
  ∧ to_snake_case "ABCWord" = "abc_word".
Proof.
  split_and!.
  - done.
  - apply sub_pattern1.
  - apply sub_pattern2.
  - intros name. unfold to_snake_case, snake_case_by_scanning.
    by rewrite to_snake_case_chars_scan.
  - by vm_compute.
  - by vm_compute.
Qed.

(** C7.  Converting a converted name changes nothing. *)
Theorem to_snake_case_idempotent (name : string) :
  to_snake_case (to_snake_case name) = to_snake_case name.
Proof.
  unfold to_snake_case.
  rewrite String.list_ascii_of_string_of_list_ascii. f_equal.
  set (s := String.list_ascii_of_string name).
  rewrite (to_snake_case_chars_scan (to_snake_case_chars s)).
  assert (Hs : no_upper (to_snake_case_chars s))
    by (rewrite to_snake_case_chars_scan; apply lower_no_upper).
  by rewrite separate_words_id, separate_humps_id, lower_id.
Qed.

End SnakeFacts.

(** ** Datasets *)

Module DatasetFacts.

(** Grouping rows by [n] keeps the rows and their order, and no group
    is empty or has more than [n] rows. *)
Lemma chunks_fuel_spec fuel n rows :
  (0 < n)%nat → (length rows ≤ fuel)%nat →
  concat (chunks_fuel fuel n rows) = rows
  ∧ Forall (λ b, (0 < length b ≤ n)%nat) (chunks_fuel fuel n rows).
Proof.
  intros Hn. revert rows.
  induction fuel as [|fuel IH]; intros rows Hlen.
  { destruct rows; [done | simpl in Hlen; lia]. }
  destruct rows as [|r rows]; [done|].
  cbn [chunks_fuel].
  destruct (IH (drop n (r :: rows))) as [Hc Hf].
  { rewrite length_drop. simpl in *. lia. }
  split.
  - cbn [concat]. rewrite Hc. apply take_drop.
  - constructor; [|done]. rewrite length_take. simpl. lia.
Qed.

(** What [unbatch().batch(n)] hands to the consumer. *)
Lemma rebatched d d' n :
  0 < n → unbatch d = inr d' →
  batch_size_of (batch n d') = Some n
  ∧ concat (batches (batch n d')) = ds_rows d
  ∧ Forall (λ b, (0 < length b)%nat ∧ Z.of_nat (length b) ≤ n)
      (batches (batch n d')).
Proof.
  intros Hn. unfold unbatch.
  destruct (ds_batching d) as [|b bs]; [done|]. intros [= <-].
  unfold batches, batch. cbn [ds_batching ds_rows].
  destruct (chunks_fuel_spec (length (ds_rows d)) (Z.to_nat n) (ds_rows d))
    as [Hc Hf]; [lia|done|].
  split_and!; [done|done|].
  eapply Forall_impl; [exact Hf|]. simpl. intros bch. lia.
Qed.

End DatasetFacts.

(** ** Input validation *)

Module ValidateFacts.
Import Nest.

Example three_for_two :
  validate_num_inputs
    (Sequence [Leaf (VInt 1); Sequence [Leaf VNone; Leaf (VInt 3)]]) 2
  = Raises (Exn ValueError
      "Expected 2 elements in the inputs list but received 3 inputs.").
Proof. vm_compute. reflexivity. Qed.

Example mapping_of_two :
  validate_num_inputs
    (Mapping [("b", Leaf (VInt 1)); ("a", Sequence [Leaf (VInt 2)])]) 2
  = Normal ().
Proof. vm_compute. reflexivity. Qed.

(** C5.  The call raises exactly when the number of leaves differs from
    [num]; what it raises is a ValueError whose message gives [num] and
    the number of leaves; otherwise it returns.  The embedding is a
    function of the two arguments only: the source assigns to its own
    local name and to nothing else. *)
Theorem validate_num_inputs_spec (inputs : structure) (num : Z) :
  let len := Z.of_nat (length (flatten inputs)) in
  (len ≠ num ↔
     validate_num_inputs inputs num
     = Raises (Exn ValueError
         ("Expected " +:+ pretty num
          +:+ " elements in the inputs list but received "
          +:+ pretty len +:+ " inputs.")))
  ∧ (len = num ↔ validate_num_inputs inputs num = Normal ())
  ∧ (len ≠ num ↔ ∃ e, validate_num_inputs inputs num = Raises e).
Proof.
  intros len. unfold validate_num_inputs. fold len.
  destruct (Z.eqb_spec len num) as [Heq|Hne]; cbn [negb].
  - split_and!; split; try done. by intros [e ?].
  - split_and!; split; try done. eauto.
Qed.

End ValidateFacts.

(** ** Version checks *)

Module VersionFacts.
Import Dotted.

Example ten_is_above_seven : release_ltb [2; 10; 0]%N [2; 7; 0]%N = false.
Proof. reflexivity. Qed.

Example short_is_padded : release_ltb [2; 7]%N [2; 7; 0]%N = false.
Proof. reflexivity. Qed.

Example tf_2_10 : check_tf_version "2.10.0" = (Normal (), []).
Proof. vm_compute. reflexivity. Qed.

Example kt_1_0_4 :
  ∃ message,
    check_kt_version "1.0.4" = (Normal (), [Warn message "ImportWarning"]).
Proof. eexists. vm_compute. reflexivity. Qed.

Example parse_2_7_0 : parse_release "2.7.0" = Some [2; 7; 0]%N.
Proof. vm_compute. reflexivity. Qed.

Example parse_candidate : parse_release "2.7.0rc1" = None.
Proof. vm_compute. reflexivity. Qed.

Lemma release_ltb_irrefl v : release_ltb v v = false.
Proof.
  induction v as [|x v IH]; [done|].
  cbn [release_ltb]. by rewrite N.ltb_irrefl.
Qed.

(** [release_ltb] is the order of dotted numbers: [a] is below [b] when,
    at the first position where they differ, [a] has the smaller number,
    a missing number counting as zero. *)
Lemma release_ltb_spec a b :
  release_ltb a b = true
  ↔ ∃ i, (nth i a 0 < nth i b 0)%N
         ∧ ∀ j, (j < i)%nat → nth j a 0%N = nth j b 0%N.
Proof.
  revert a. induction b as [|y b IH]; intros a.
  { split.
    - by destruct a.
    - intros (i & Hi & _). destruct i; simpl in Hi; lia. }
  destruct a as [|x a]; cbn [release_ltb].
  - destruct (N.ltb_spec 0 y) as [Hy|Hy].
    + split; [|done]. intros _. exists 0%nat. split; [done|]. lia.
    + rewrite IH. split.
      * intros (i & Hi & Hj). exists (S i). split.
        { destruct i; exact Hi. }
        intros [|j] Hlt; simpl; [lia|].
        specialize (Hj j ltac:(lia)). by destruct j.
      * intros ([|i] & Hi & Hj); simpl in Hi; [lia|].
        exists i. split; [by destruct i|].
        intros j Hlt. specialize (Hj (S j) ltac:(lia)). simpl in Hj.
        by destruct j.
  - destruct (N.ltb_spec x y) as [Hxy|Hxy].
    { split; [|done]. intros _. exists 0%nat. split; [done|]. lia. }
    destruct (N.ltb_spec y x) as [Hyx|Hyx].
    { split; [done|]. intros ([|i] & Hi & Hj); simpl in Hi; [lia|].
      specialize (Hj 0%nat ltac:(lia)). simpl in Hj. lia. }
    rewrite IH. split.
    + intros (i & Hi & Hj). exists (S i). split; [done|].
      intros [|j] Hlt; simpl; [lia|]. apply Hj. lia.
    + intros ([|i] & Hi & Hj); simpl in Hi; [lia|].
      exists i. split; [done|].
      intros j Hlt. apply (Hj (S j)). lia.
Qed.

(** C8.  The version library parses the installed version string and
    the two minimum versions.  When the installed version is below the
    minimum in the library's order, the check issues one warning, whose
    text contains the installed version string, and returns; otherwise it
    issues none and returns.  Neither case raises.  This holds for every
    implementation of the library's interface. *)
Theorem version_checks_warn_once `{Packaging} (installed : string)
    (v minimum_tf minimum_kt : version) :
  parse installed = inr v →
  parse "2.7.0" = inr minimum_tf →
  parse "1.1.0" = inr minimum_kt →
  check_tf_version installed
  = (Normal (),
     if version_ltb v minimum_tf then
       [Warn
          ("The Tensorflow package version needs to be at least 2.7.0 "
           +:+ nl +:+
           "for AutoKeras to run. Currently, your TensorFlow version is "
           +:+ nl +:+ installed +:+ ". Please upgrade with " +:+ nl +:+
           "`$ pip install --upgrade tensorflow`. " +:+ nl +:+
           "You can use `pip freeze` to check afterwards that everything is ok.")
          "ImportWarning"]
     else [])
  ∧ check_kt_version installed
    = (Normal (),
       if version_ltb v minimum_kt then
         [Warn
            ("The Keras Tuner package version needs to be at least 1.1.0 "
             +:+ nl +:+
             "for AutoKeras to run. Currently, your Keras Tuner version is "
             +:+ nl +:+ installed +:+ ". Please upgrade with " +:+ nl +:+
             "`$ pip install --upgrade keras-tuner`. " +:+ nl +:+
             "You can use `pip freeze` to check afterwards that everything is ok.")
            "ImportWarning"]
       else []).
Proof.
  intros Hv Htf Hkt. unfold check_tf_version, check_kt_version.
  rewrite Hv, Htf, Hkt. split.
  - by destruct (version_ltb v minimum_tf).
  - by destruct (version_ltb v minimum_kt).
Qed.

Lemma version_checks_warn_once_witness :
  check_tf_version "2.6.5"
  = (Normal (),
     if release_ltb [2; 6; 5]%N [2; 7; 0]%N then
       [Warn
          ("The Tensorflow package version needs to be at least 2.7.0 "
           +:+ nl +:+
           "for AutoKeras to run. Currently, your TensorFlow version is "
           +:+ nl +:+ "2.6.5" +:+ ". Please upgrade with " +:+ nl +:+
           "`$ pip install --upgrade tensorflow`. " +:+ nl +:+
           "You can use `pip freeze` to check afterwards that everything is ok.")
          "ImportWarning"]
     else [])
  ∧ check_kt_version "2.6.5"
    = (Normal (),
       if release_ltb [2; 6; 5]%N [1; 1; 0]%N then
         [Warn
            ("The Keras Tuner package version needs to be at least 1.1.0 "
             +:+ nl +:+
             "for AutoKeras to run. Currently, your Keras Tuner version is "
             +:+ nl +:+ "2.6.5" +:+ ". Please upgrade with " +:+ nl +:+
             "`$ pip install --upgrade keras-tuner`. " +:+ nl +:+
             "You can use `pip freeze` to check afterwards that everything is ok.")
            "ImportWarning"]
       else []).
Proof.
  apply (@version_checks_warn_once Dotted.packaging "2.6.5"
           [2; 6; 5]%N [2; 7; 0]%N [1; 1; 0]%N).
  - vm_compute. reflexivity.
  - vm_compute. reflexivity.
  - vm_compute. reflexivity.
Defined.

End VersionFacts.

(** ** Hyperparameters *)

Module HyperparameterFacts.
Import HP.

(** C9.  The result is [value] unless [value] is [None], in which case
    it is [hp]; [dtype] plays no part. *)
Theorem get_hyperparameter_spec (value hp dtype : Py.value) :
  (value ≠ VNone → get_hyperparameter value hp dtype = value)
  ∧ (value = VNone → get_hyperparameter value hp dtype = hp)
  ∧ (∀ dtype',
       get_hyperparameter value hp dtype'
       = get_hyperparameter value hp dtype).
Proof.
  unfold get_hyperparameter. split_and!.
  - by destruct value.
  - by intros ->.
  - done.
Qed.

Lemma get_hyperparameter_spec_witness :
  get_hyperparameter (VInt 64) (VObject 1) (VStr "int") = VInt 64
  ∧ get_hyperparameter VNone (VObject 1) (VStr "int") = VObject 1.
Proof.
  split.
  - apply (proj1 (get_hyperparameter_spec (VInt 64) (VObject 1)
                    (VStr "int"))).
    discriminate.
  - apply (proj1 (proj2 (get_hyperparameter_spec VNone (VObject 1)
                           (VStr "int")))).
    reflexivity.
Defined.

Example add_units :
  add_to_hp (Instance Samples.units) ([] : Samples.registry) (Some "width")
  = (Normal (Plain (VInt 32)),
     [("Int", "width",
       {[ "min_value" := VInt 32; "max_value" := VInt 512;
          "default" := VInt 32 ]})],
     [Getattr "Int";
      Invoke "Int" "width"
        {[ "min_value" := VInt 32; "max_value" := VInt 512;
           "default" := VInt 32 ]}]).
Proof. vm_compute. reflexivity. Qed.

(** C10.  A value that is no HyperParameter instance comes back as it
    is; the container is the one that was passed, and nothing was looked
    up or called on it. *)
Theorem add_to_hp_passes_plain_values {R} `{HyperParameters R}
    (hp : object) (hps : R) (name : option string) :
  isinstance_HyperParameter hp = false →
  add_to_hp hp hps name = (Normal hp, hps, []).
Proof. intros Hhp. by destruct hp. Qed.

Lemma add_to_hp_passes_plain_values_witness :
  add_to_hp (Plain (VInt 3)) ([] : Samples.registry) None
  = (Normal (Plain (VInt 3)), [], []).
Proof.
  apply (add_to_hp_passes_plain_values (Plain (VInt 3))
           ([] : Samples.registry) None).
  reflexivity.
Defined.

End HyperparameterFacts.

(** * Further properties *)

(** ** The retry loop, continued *)

Module AdaptiveMore.
Import Adaptive AdaptiveFacts.

Section Loop.
Context {World : Type}.
Implicit Types (func : callable World) (l : Locals) (env : Env World).

(** What [run_with_adaptive_batch_size] hands to the loop when "x" is
    among the keyword arguments. *)
Lemma run_enters_loop func fuel bs kwargs env xv :
  kwargs !! "x" = Some xv →
  run_with_adaptive_batch_size fuel bs func kwargs env
  = let '(o, l, env') :=
      while_loop func fuel
        (MkLocals bs xv (default VNone (kwargs !! "validation_data"))
           (delete "validation_data" (delete "x" kwargs))) env in
    (o, Some l, env').
Proof.
  intros Hx. unfold run_with_adaptive_batch_size. rewrite Hx.
  rewrite lookup_delete_ne by done.
  destruct (kwargs !! "validation_data") as [v|] eqn:Hv; cbn [default].
  - done.
  - rewrite (delete_id (delete "x" kwargs) "validation_data")
      by (by rewrite lookup_delete_ne).
    done.
Qed.

(** Everything one pass through the body does. *)
Lemma loop_body_inv func l env s l1 env1 :
  loop_body func l env = (s, l1, env1) →
  calls env1 = calls env ++ [MkCall (batch_size l) (x l) (validation_data l)]
  ∧ fit_kwargs l1 = fit_kwargs l
  ∧ match s with
    | Break h =>
        l1 = l ∧ stdout env1 = stdout env
    | Continue =>
        batch_size l ≠ 1
        ∧ batch_size l1 = batch_size l `div` 2
        ∧ stdout env1 = stdout env ++ [reduce_message (batch_size l `div` 2)]
        ∧ unbatch_batch (x l) (batch_size l `div` 2) = inr (x l1)
        ∧ (if is_none (validation_data l)
           then validation_data l1 = validation_data l
           else unbatch_batch (validation_data l) (batch_size l `div` 2)
                = inr (validation_data l1))
    | Raise e => True
    end.
Proof.
  unfold loop_body.
  destruct (func _ _ _ _) as [w [e|h]].
  2:{ intros [= <- <- <-]. done. }
  destruct (is_resource_exhausted e).
  2:{ intros [= <- <- <-]. done. }
  destruct (Z.eqb_spec (batch_size l) 1).
  { intros [= <- <- <-]. done. }
  cbn [x validation_data batch_size fit_kwargs calls stdout world].
  destruct (unbatch_batch (x l) _) as [e'|x'] eqn:Hx.
  { intros [= <- <- <-]. done. }
  destruct (is_none (validation_data l)) eqn:Hn.
  { intros [= <- <- <-]. done. }
  destruct (unbatch_batch (validation_data l) _) as [e'|v'] eqn:Hv.
  { intros [= <- <- <-]. done. }
  intros [= <- <- <-]. done.
Qed.

(** The loop never touches the other keyword arguments, and a
    validation dataset that is [None] stays [None]. *)
Lemma while_loop_keeps func fuel l env o l' env' :
  while_loop func fuel l env = (o, l', env') →
  fit_kwargs l' = fit_kwargs l
  ∧ ∃ new,
      calls env' = calls env ++ new
      ∧ (validation_data l = VNone →
         validation_data l' = VNone
         ∧ Forall (λ c, call_validation_data c = VNone) new).
Proof.
  revert l env. induction fuel as [|fuel IH]; intros l env; cbn [while_loop].
  { destruct (0 <? batch_size l); intros [= <- <- <-];
      (split; [done|]; exists []; rewrite app_nil_r; by split). }
  destruct (0 <? batch_size l).
  2:{ intros [= <- <- <-]. split; [done|]. exists [].
      rewrite app_nil_r. by split. }
  destruct (loop_body func l env) as [[s l1] env1] eqn:Hb.
  destruct (loop_body_inv func l env s l1 env1 Hb) as (Hc & Hk & Hs).
  assert (Hone : validation_data l = VNone →
            Forall (λ c, call_validation_data c = VNone)
              [MkCall (batch_size l) (x l) (validation_data l)])
    by (intros Hv; by repeat constructor).
  destruct s as [| h | e].
  - intros Hw. destruct (IH l1 env1 Hw) as (Hk' & new & Hc' & Hv').
    destruct Hs as (_ & _ & _ & _ & Hvd).
    split; [congruence|].
    exists (MkCall (batch_size l) (x l) (validation_data l) :: new).
    split; [by rewrite Hc', Hc, <- app_assoc|].
    intros Hv. rewrite Hv in Hvd. cbn in Hvd.
    destruct (Hv' Hvd) as [? ?]. split; [done|].
    constructor; [done|done].
  - intros [= <- <- <-]. destruct Hs as [-> _]. split; [done|].
    eexists. split; [exact Hc|]. auto.
  - intros [= <- <- <-]. split; [done|].
    eexists. split; [exact Hc|]. intros Hv. split; [|auto].
    revert Hb. unfold loop_body.
    destruct (func _ _ _ _) as [w [e'|h]]; [|done].
    destruct (is_resource_exhausted e'); [|by intros [= _ <- _]].
    destruct (batch_size l =? 1); [by intros [= _ <- _]|].
    cbn [x validation_data batch_size fit_kwargs].
    destruct (unbatch_batch (x l) _); [by intros [= _ <- _]|].
    rewrite Hv. cbn [is_none]. done.
Qed.

(** A dataset batched by the current batch size stays so, with the same
    rows, at every invocation. *)
Lemma while_loop_batched func fuel rows l env o l' env' :
  while_loop func fuel l env = (o, l', env') →
  (∃ d, x l = VDataset d ∧ ds_rows d = rows
        ∧ batch_size_of d = Some (batch_size l)) →
  ∃ new,
    calls env' = calls env ++ new
    ∧ Forall (λ c, ∃ d, call_x c = VDataset d ∧ ds_rows d = rows
                        ∧ batch_size_of d = Some (call_batch_size c)) new.
Proof.
  revert l env. induction fuel as [|fuel IH]; intros l env; cbn [while_loop].
  { destruct (0 <? batch_size l); intros [= <- <- <-] _;
      (exists []; rewrite app_nil_r; by split). }
  destruct (0 <? batch_size l).
  2:{ intros [= <- <- <-] _. exists []. rewrite app_nil_r. by split. }
  destruct (loop_body func l env) as [[s l1] env1] eqn:Hb.
  destruct (loop_body_inv func l env s l1 env1 Hb) as (Hc & Hk & Hs).
  intros Hw Hx.
  assert (Hone : Forall (λ c, ∃ d, call_x c = VDataset d ∧ ds_rows d = rows
                          ∧ batch_size_of d = Some (call_batch_size c))
                   [MkCall (batch_size l) (x l) (validation_data l)])
    by (by repeat constructor).
  destruct s as [| h | e].
  - destruct Hs as (_ & Hhalf & _ & Hx1 & _).
    destruct (IH l1 env1 Hw) as (new & Hc' & Hall).
    { destruct Hx as (d & Ed & Hrows & _). rewrite Ed in Hx1.
      unfold unbatch_batch, unbatch in Hx1.
      destruct (ds_batching d); [done|]. injection Hx1 as <-.
      eexists. split; [done|]. rewrite Hhalf. by split. }
    exists (MkCall (batch_size l) (x l) (validation_data l) :: new).
    split; [by rewrite Hc', Hc, <- app_assoc|].
    inversion Hone; subst. by constructor.
  - injection Hw as <- <- <-. eexists. split; [exact Hc|done].
  - injection Hw as <- <- <-. eexists. split; [exact Hc|done].
Qed.

Lemma while_loop_batched_validation func fuel rows l env o l' env' :
  while_loop func fuel l env = (o, l', env') →
  (∃ d, validation_data l = VDataset d ∧ ds_rows d = rows
        ∧ batch_size_of d = Some (batch_size l)) →
  ∃ new,
    calls env' = calls env ++ new
    ∧ Forall (λ c, ∃ d, call_validation_data c = VDataset d
                        ∧ ds_rows d = rows
                        ∧ batch_size_of d = Some (call_batch_size c)) new.
Proof.
  revert l env. induction fuel as [|fuel IH]; intros l env; cbn [while_loop].
  { destruct (0 <? batch_size l); intros [= <- <- <-] _;
      (exists []; rewrite app_nil_r; by split). }
  destruct (0 <? batch_size l).
  2:{ intros [= <- <- <-] _. exists []. rewrite app_nil_r. by split. }
  destruct (loop_body func l env) as [[s l1] env1] eqn:Hb.
  destruct (loop_body_inv func l env s l1 env1 Hb) as (Hc & Hk & Hs).
  intros Hw Hv.
  assert (Hone : Forall (λ c, ∃ d, call_validation_data c = VDataset d
                          ∧ ds_rows d = rows
                          ∧ batch_size_of d = Some (call_batch_size c))
                   [MkCall (batch_size l) (x l) (validation_data l)])
    by (by repeat constructor).
  destruct s as [| h | e].
  - destruct Hs as (_ & Hhalf & _ & _ & Hv1).
    destruct (IH l1 env1 Hw) as (new & Hc' & Hall).
    { destruct Hv as (d & Ed & Hrows & _). rewrite Ed in Hv1.
      cbn [is_none] in Hv1. unfold unbatch_batch, unbatch in Hv1.
      destruct (ds_batching d); [done|]. injection Hv1 as <-.
      eexists. split; [done|]. rewrite Hhalf. by split. }
    exists (MkCall (batch_size l) (x l) (validation_data l) :: new).
    split; [by rewrite Hc', Hc, <- app_assoc|].
    inversion Hone; subst. by constructor.
  - injection Hw as <- <- <-. eexists. split; [exact Hc|done].
  - injection Hw as <- <- <-. eexists. split; [exact Hc|done].
Qed.

(** When the loop returns, it has printed one message for each
    invocation after the first, with the batch size of that invocation. *)
Lemma while_loop_messages func fuel l env history l' env' :
  while_loop func fuel l env = (Returned history, l', env') →
  ∃ c new,
    calls env' = calls env ++ c :: new
    ∧ call_batch_size c = batch_size l
    ∧ stdout env'
      = stdout env ++ (reduce_message <$> (call_batch_size <$> new)).
Proof.
  revert l env. induction fuel as [|fuel IH]; intros l env; cbn [while_loop].
  { by destruct (0 <? batch_size l). }
  destruct (0 <? batch_size l); [|done].
  destruct (loop_body func l env) as [[s l1] env1] eqn:Hb.
  destruct (loop_body_inv func l env s l1 env1 Hb) as (Hc & Hk & Hs).
  destruct s as [| h | e]; [| |done].
  - intros Hw. destruct (IH l1 env1 Hw) as (c & new & Hc' & Hbs & Hout).
    destruct Hs as (_ & Hhalf & Hmsg & _).
    exists (MkCall (batch_size l) (x l) (validation_data l)), (c :: new).
    split_and!; [by rewrite Hc', Hc, <- app_assoc|done|].
    rewrite Hout, Hmsg, <- app_assoc. cbn [fmap list_fmap app].
    by rewrite Hbs, Hhalf.
  - intros [= <- <- <-]. destruct Hs as [_ Hout].
    exists (MkCall (batch_size l) (x l) (validation_data l)), [].
    split_and!; [done|done|]. cbn. by rewrite app_nil_r.
Qed.

(** A strictly positive run of halvings that ends at 1 has exactly
    [log2 b + 1] numbers. *)
Lemma halvings_to_one n b :
  0 < b → (n ≤ Z.to_nat (Z.log2 b) + 1)%nat →
  last (halvings n b) = Some 1 →
  n = (Z.to_nat (Z.log2 b) + 1)%nat.
Proof.
  revert b. induction n as [|n IH]; intros b Hb Hn Hlast; [done|].
  destruct n as [|n].
  { cbn in Hlast. injection Hlast as ->. done. }
  assert (1 ≤ Z.log2 b) by lia.
  assert (2 ≤ b) by (pose proof (proj2 (Z.log2_null b)); lia).
  rewrite (IH (b `div` 2)).
  - rewrite log2_half by lia. lia.
  - apply Z.div_str_pos. lia.
  - rewrite log2_half by lia. lia.
  - exact Hlast.
Qed.

End Loop.

(** Without the keyword "x" the call raises KeyError at once. *)
Lemma missing_x_is_key_error {World} (func : callable World) (fuel : nat)
    (bs : Z) (kwargs : gmap string value) (env : Env World) :
  kwargs !! "x" = None →
  ∃ e, run_with_adaptive_batch_size fuel bs func kwargs env
       = (Raised e, None, env)
       ∧ exn_cls e = KeyError.
Proof.
  intros Hx. unfold run_with_adaptive_batch_size. rewrite Hx.
  by eexists.
Qed.

(** X1.  With a batch size of zero or less the loop body never runs:
    [func] is not invoked, nothing is printed, and the call raises
    UnboundLocalError for [history]. *)
Theorem nonpositive_batch_size_raises {World} (func : callable World)
    (fuel : nat) (bs : Z) (kwargs : gmap string value) (env : Env World)
    (xv : value) :
  kwargs !! "x" = Some xv →
  bs ≤ 0 →
  ∃ l, run_with_adaptive_batch_size fuel bs func kwargs env
       = (Raised unbound_history, Some l, env)
       ∧ batch_size l = bs ∧ x l = xv.
Proof.
  intros Hx Hbs. rewrite (run_enters_loop func fuel bs kwargs env xv Hx).
  assert (Hloop : ∀ l : Locals, batch_size l = bs →
            while_loop func fuel l env = (Raised unbound_history, l, env)).
  { intros l Hl. destruct fuel; cbn [while_loop]; rewrite Hl;
      by destruct (Z.ltb_spec 0 bs); [lia|]. }
  rewrite Hloop by done. by eexists.
Qed.

Lemma nonpositive_batch_size_raises_witness :
  ∃ l, run_with_adaptive_batch_size 3 0 MoreSamples.succeeds Samples.kwargs
         Samples.env0
       = (Raised unbound_history, Some l, Samples.env0)
       ∧ batch_size l = 0 ∧ x l = VDataset Samples.train.
Proof.
  apply (nonpositive_batch_size_raises MoreSamples.succeeds 3 0
           Samples.kwargs Samples.env0 (VDataset Samples.train)).
  - vm_compute. reflexivity.
  - lia.
Defined.

(** X2.  When the first invocation of [func] returns, the call returns
    that result after this one invocation: [func] got "x" as it was
    given, the validation dataset or [None], and the other keywords;
    nothing is printed and nothing is re-batched. *)
Theorem first_try_success {World} (func : callable World) (fuel : nat)
    (bs : Z) (kwargs : gmap string value) (env : Env World)
    (xv history : value) (w : World) :
  let vd := default VNone (kwargs !! "validation_data") in
  let kw := delete "validation_data" (delete "x" kwargs) in
  kwargs !! "x" = Some xv →
  0 < bs →
  func (world env) xv vd kw = (w, inr history) →
  run_with_adaptive_batch_size (S fuel) bs func kwargs env
  = (Returned history, Some (MkLocals bs xv vd kw),
     MkEnv w (stdout env) (calls env ++ [MkCall bs xv vd])).
Proof.
  intros vd kw Hx Hbs Hf.
  rewrite (run_enters_loop func (S fuel) bs kwargs env xv Hx).
  fold vd kw. cbn [while_loop batch_size].
  destruct (Z.ltb_spec 0 bs); [|lia].
  by erewrite loop_body_success by exact Hf.
Qed.

Lemma first_try_success_witness :
  let kwargs : gmap string value :=
    {[ "x" := MoreSamples.array; "epochs" := VInt 3 ]} in
  let vd := default VNone (kwargs !! "validation_data") in
  let kw := delete "validation_data" (delete "x" kwargs) in
  run_with_adaptive_batch_size 1 32 MoreSamples.succeeds kwargs Samples.env0
  = (Returned (VStr "history"), Some (MkLocals 32 MoreSamples.array vd kw),
     MkEnv 1%nat (stdout Samples.env0)
       (calls Samples.env0 ++ [MkCall 32 MoreSamples.array vd])).
Proof.
  apply (first_try_success MoreSamples.succeeds 0 32
           {[ "x" := MoreSamples.array; "epochs" := VInt 3 ]} Samples.env0
           MoreSamples.array (VStr "history") 1%nat).
  - vm_compute. reflexivity.
  - lia.
  - reflexivity.
Defined.

(** X3.  The loop leaves the other keyword arguments alone: at the end
    [fit_kwargs] is what was passed without "x" and "validation_data";
    and when no validation dataset was given, or [None], every
    invocation of [func] gets [None] for it. *)
Theorem keywords_are_kept {World} (func : callable World) (fuel : nat)
    (bs : Z) (kwargs : gmap string value) (env env' : Env World)
    (xv : value) (o : Outcome) (l' : Locals) :
  kwargs !! "x" = Some xv →
  run_with_adaptive_batch_size fuel bs func kwargs env = (o, Some l', env') →
  fit_kwargs l' = delete "validation_data" (delete "x" kwargs)
  ∧ ∃ new,
      calls env' = calls env ++ new
      ∧ (default VNone (kwargs !! "validation_data") = VNone →
         validation_data l' = VNone
         ∧ Forall (λ c, call_validation_data c = VNone) new).
Proof.
  intros Hx. rewrite (run_enters_loop func fuel bs kwargs env xv Hx).
  destruct (while_loop _ _ _ _) as [[o1 l1] env1] eqn:Hw.
  intros [= <- <- <-].
  apply (while_loop_keeps func fuel _ env o1 l1 env1 Hw).
Qed.

Lemma keywords_are_kept_witness :
  ∃ o l' env',
    run_with_adaptive_batch_size 9 8 Samples.always_oom
      {[ "x" := VDataset Samples.train; "epochs" := VInt 3 ]} Samples.env0
    = (o, Some l', env')
    ∧ fit_kwargs l'
      = delete "validation_data"
          (delete "x" ({[ "x" := VDataset Samples.train;
                          "epochs" := VInt 3 ]} : gmap string value))
    ∧ ∃ new,
        calls env' = calls Samples.env0 ++ new
        ∧ (default VNone
             (({[ "x" := VDataset Samples.train; "epochs" := VInt 3 ]}
               : gmap string value) !! "validation_data") = VNone →
           validation_data l' = VNone
           ∧ Forall (λ c, call_validation_data c = VNone) new).
Proof.
  destruct (run_with_adaptive_batch_size 9 8 Samples.always_oom
              {[ "x" := VDataset Samples.train; "epochs" := VInt 3 ]}
              Samples.env0) as [[o [l'|]] env'] eqn:Hrun;
    [|vm_compute in Hrun; discriminate Hrun].
  exists o, l', env'. split; [reflexivity|].
  apply (keywords_are_kept Samples.always_oom 9 8
           {[ "x" := VDataset Samples.train; "epochs" := VInt 3 ]}
           Samples.env0 env' (VDataset Samples.train) o l').
  - vm_compute. reflexivity.
  - exact Hrun.
Defined.

(** X4.  When "x" is a dataset batched by the initial batch size, every
    invocation of [func] gets a dataset with the same rows, batched by the
    batch size current at that invocation; the same holds for the
    validation dataset when it is batched by the initial batch size. *)
Theorem datasets_follow_batch_size {World} (func : callable World)
    (fuel : nat) (bs : Z) (kwargs : gmap string value) (env env' : Env World)
    (d : Dataset) (o : Outcome) (lo : option Locals) :
  kwargs !! "x" = Some (VDataset d) →
  batch_size_of d = Some bs →
  run_with_adaptive_batch_size fuel bs func kwargs env = (o, lo, env') →
  ∃ new,
    calls env' = calls env ++ new
    ∧ Forall (λ c, ∃ d', call_x c = VDataset d' ∧ ds_rows d' = ds_rows d
                         ∧ batch_size_of d' = Some (call_batch_size c)) new
    ∧ ∀ dv, kwargs !! "validation_data" = Some (VDataset dv) →
            batch_size_of dv = Some bs →
            Forall (λ c, ∃ d', call_validation_data c = VDataset d'
                               ∧ ds_rows d' = ds_rows dv
                               ∧ batch_size_of d' = Some (call_batch_size c))
              new.
Proof.
  intros Hx Hd. rewrite (run_enters_loop func fuel bs kwargs env _ Hx).
  destruct (while_loop _ _ _ _) as [[o1 l1] env1] eqn:Hw.
  intros [= <- <- <-].
  destruct (while_loop_batched func fuel (ds_rows d) _ env o1 l1 env1 Hw)
    as (new & Hc & Hall); [by exists d|].
  exists new. split_and!; [done|done|].
  intros dv Hv Hdv.
  destruct (while_loop_batched_validation func fuel (ds_rows dv) _ env
              o1 l1 env1 Hw) as (new' & Hc' & Hall').
  { exists dv. cbn [validation_data batch_size]. by rewrite Hv. }
  rewrite Hc in Hc'. apply app_inv_head in Hc'. by subst new'.
Qed.

Lemma datasets_follow_batch_size_witness :
  ∃ new,
    calls (run_with_adaptive_batch_size 9 32 Samples.fits_below_8
             Samples.kwargs Samples.env0).2
    = calls Samples.env0 ++ new
    ∧ Forall (λ c, ∃ d', call_x c = VDataset d'
                         ∧ ds_rows d' = ds_rows Samples.train
                         ∧ batch_size_of d' = Some (call_batch_size c)) new
    ∧ ∀ dv, Samples.kwargs !! "validation_data" = Some (VDataset dv) →
            batch_size_of dv = Some 32 →
            Forall (λ c, ∃ d', call_validation_data c = VDataset d'
                               ∧ ds_rows d' = ds_rows dv
                               ∧ batch_size_of d' = Some (call_batch_size c))
              new.
Proof.
  destruct (run_with_adaptive_batch_size 9 32 Samples.fits_below_8
              Samples.kwargs Samples.env0) as [[o lo] env'] eqn:Hrun.
  apply (datasets_follow_batch_size Samples.fits_below_8 9 32 Samples.kwargs
           Samples.env0 env' Samples.train o lo).
  - vm_compute. reflexivity.
  - reflexivity.
  - exact Hrun.
Defined.

(** X5.  When the call returns a result, it has printed exactly one
    message for each invocation of [func] after the first, in order, each
    naming the batch size of that invocation; the first invocation is at
    the batch size given. *)
Theorem messages_on_success {World} (func : callable World) (fuel : nat)
    (bs : Z) (kwargs : gmap string value) (env env' : Env World)
    (xv history : value) (lo : option Locals) :
  kwargs !! "x" = Some xv →
  run_with_adaptive_batch_size fuel bs func kwargs env
    = (Returned history, lo, env') →
  ∃ c new,
    calls env' = calls env ++ c :: new
    ∧ call_batch_size c = bs
    ∧ stdout env'
      = stdout env ++ (reduce_message <$> (call_batch_size <$> new)).
Proof.
  intros Hx. rewrite (run_enters_loop func fuel bs kwargs env xv Hx).
  destruct (while_loop _ _ _ _) as [[o1 l1] env1] eqn:Hw.
  intros [= -> <- <-].
  apply (while_loop_messages func fuel _ env history l1 env1 Hw).
Qed.

Lemma messages_on_success_witness :
  ∃ c new,
    calls (run_with_adaptive_batch_size 9 32 Samples.fits_below_8
             Samples.kwargs Samples.env0).2
    = calls Samples.env0 ++ c :: new
    ∧ call_batch_size c = 32
    ∧ stdout (run_with_adaptive_batch_size 9 32 Samples.fits_below_8
                Samples.kwargs Samples.env0).2
      = stdout Samples.env0 ++ (reduce_message <$> (call_batch_size <$> new)).
Proof.
  destruct (run_with_adaptive_batch_size 9 32 Samples.fits_below_8
              Samples.kwargs Samples.env0) as [[o lo] env'] eqn:Hrun.
  assert (Ho : o = Returned (VStr "history")).
  { vm_compute in Hrun. injection Hrun as <- _ _. reflexivity. }
  rewrite Ho in Hrun.
  apply (messages_on_success Samples.fits_below_8 9 32 Samples.kwargs
           Samples.env0 env' (VDataset Samples.train) (VStr "history") lo).
  - vm_compute. reflexivity.
  - exact Hrun.
Defined.

(** X6.  When [func] raises resource exhaustion at every invocation and
    the datasets can be re-batched, a call from a positive batch size
    invokes [func] exactly [log2 batch_size + 1] times, at the successive
    halvings of the batch size, and raises a resource-exhaustion error. *)
Theorem persistent_failure_count {World} (func : callable World)
    (fuel : nat) (bs : Z) (kwargs : gmap string value) (env : Env World)
    (xv : value) :
  (∀ w xv v k, ∃ w' e,
     func w xv v k = (w', inl e) ∧ is_resource_exhausted e = true) →
  0 < bs →
  (Z.to_nat (Z.log2 bs) < fuel)%nat →
  kwargs !! "x" = Some xv →
  rebatchable xv →
  default VNone (kwargs !! "validation_data") = VNone
  ∨ rebatchable (default VNone (kwargs !! "validation_data")) →
  ∃ e l' env' new,
    run_with_adaptive_batch_size fuel bs func kwargs env
      = (Raised e, Some l', env')
    ∧ is_resource_exhausted e = true
    ∧ calls env' = calls env ++ new
    ∧ call_batch_size <$> new = halvings (Z.to_nat (Z.log2 bs) + 1) bs.
Proof.
  intros Hall Hbs Hfuel Hx Hrx Hrv.
  rewrite (run_enters_loop func fuel bs kwargs env xv Hx).
  set (l := MkLocals bs xv _ _).
  destruct (while_loop_ends func fuel l env Hbs Hfuel)
    as (o & l' & env' & new & Hw & Ho & Hc & Hn & Hb).
  destruct (while_loop_persistent_failure func fuel l env Hall Hbs Hfuel
              Hrx Hrv) as (e & l'' & env'' & Hw' & He & Hl & Hlast).
  rewrite Hw in Hw'. injection Hw' as -> -> ->.
  rewrite Hw. exists e, l'', env'', new. split_and!; try done.
  subst l. cbn [batch_size] in Hb, Hn.
  rewrite Hb. f_equal. apply halvings_to_one; [done|lia|].
  rewrite <- Hb.
  rewrite Hc, fmap_app, last_app in Hlast.
  destruct (last (call_batch_size <$> new)) eqn:E; [done|].
  apply last_None in E. destruct new; [simpl in Hn; lia|done].
Qed.

Lemma persistent_failure_count_witness :
  ∃ e l' env' new,
    run_with_adaptive_batch_size 9 40 Samples.always_oom Samples.kwargs
      Samples.env0
      = (Raised e, Some l', env')
    ∧ is_resource_exhausted e = true
    ∧ calls env' = calls Samples.env0 ++ new
    ∧ call_batch_size <$> new = halvings (Z.to_nat (Z.log2 40) + 1) 40.
Proof.
  apply (persistent_failure_count Samples.always_oom 9 40 Samples.kwargs
           Samples.env0 (VDataset Samples.train)).
  - intros w xv v k. exists (S w), Samples.oom. split; reflexivity.
  - lia.
  - vm_compute. lia.
  - vm_compute. reflexivity.
  - exists Samples.train. split; [reflexivity|discriminate].
  - right. exists Samples.held_out. split; [|discriminate].
    vm_compute. reflexivity.
Defined.

(** X7.  When [func] raises resource exhaustion at a batch size above 1
    and "x" cannot be re-batched, the call raises the error of the
    re-batching, not the resource-exhaustion error: by then the batch size
    is halved and the message about it is printed, and [func] is not
    invoked again. *)
Theorem failed_rebatch_replaces_error {World} (func : callable World)
    (fuel : nat) (bs : Z) (kwargs : gmap string value) (env : Env World)
    (xv : value) (w : World) (e e' : exn) :
  let vd := default VNone (kwargs !! "validation_data") in
  let kw := delete "validation_data" (delete "x" kwargs) in
  kwargs !! "x" = Some xv →
  1 < bs →
  func (world env) xv vd kw = (w, inl e) →
  is_resource_exhausted e = true →
  unbatch_batch xv (bs `div` 2) = inl e' →
  run_with_adaptive_batch_size (S fuel) bs func kwargs env
  = (Raised e', Some (MkLocals (bs `div` 2) xv vd kw),
     MkEnv w (stdout env ++ [reduce_message (bs `div` 2)])
       (calls env ++ [MkCall bs xv vd])).
Proof.
  intros vd kw Hx Hbs Hf He Hre.
  rewrite (run_enters_loop func (S fuel) bs kwargs env xv Hx).
  fold vd kw. cbn [while_loop batch_size].
  destruct (Z.ltb_spec 0 bs); [|lia].
  unfold loop_body. cbn [x validation_data fit_kwargs batch_size].
  rewrite Hf, He. destruct (Z.eqb_spec bs 1); [lia|].
  cbn [x validation_data fit_kwargs batch_size world stdout calls].
  by rewrite Hre.
Qed.

Lemma failed_rebatch_replaces_error_witness :
  let kwargs : gmap string value :=
    {[ "x" := MoreSamples.array; "epochs" := VInt 3 ]} in
  let vd := default VNone (kwargs !! "validation_data") in
  let kw := delete "validation_data" (delete "x" kwargs) in
  run_with_adaptive_batch_size 1 32 Samples.always_oom kwargs Samples.env0
  = (Raised (Exn AttributeError "object has no attribute 'unbatch'"),
     Some (MkLocals (32 `div` 2) MoreSamples.array vd kw),
     MkEnv 1%nat (stdout Samples.env0 ++ [reduce_message (32 `div` 2)])
       (calls Samples.env0 ++ [MkCall 32 MoreSamples.array vd])).
Proof.
  apply (failed_rebatch_replaces_error Samples.always_oom 0 32
           {[ "x" := MoreSamples.array; "epochs" := VInt 3 ]} Samples.env0
           MoreSamples.array 1%nat Samples.oom
           (Exn AttributeError "object has no attribute 'unbatch'")).
  - vm_compute. reflexivity.
  - lia.
  - reflexivity.
  - reflexivity.
  - reflexivity.
Defined.

End AdaptiveMore.

(** ** The three wrappers *)

Module WrapperFacts.
Import Adaptive AdaptiveFacts AdaptiveMore Wrappers.

(** What the lambda of the fit wrapper passes on. *)
Lemma fit_keywords (kwargs : gmap string value) xv vd :
  kwargs !! "x" = Some xv →
  <["x" := xv]>
    (<["validation_data" := vd]>
       (delete "validation_data" (delete "x" kwargs)))
  = <["validation_data" := vd]> kwargs.
Proof.
  intros Hx. apply map_eq. intros k.
  destruct (decide (k = "x")) as [->|Hkx].
  { by rewrite lookup_insert_eq, lookup_insert_ne, Hx. }
  rewrite lookup_insert_ne by done.
  destruct (decide (k = "validation_data")) as [->|Hkv].
  { by rewrite !lookup_insert_eq. }
  by rewrite !lookup_insert_ne, !lookup_delete_ne.
Qed.

(** No keyword has the name of a positional parameter: the call binds. *)
Lemma multiple_values_none function names (keywords : gmap string value) :
  (∀ n, n ∈ names → keywords !! n = None) →
  multiple_values function names keywords = None.
Proof.
  intros Hfree. unfold multiple_values.
  replace (filter (λ n, is_Some (keywords !! n)) names) with (@nil string);
    [done|].
  symmetry. induction names as [|n names IH]; [done|].
  rewrite filter_cons.
  destruct (decide (is_Some (keywords !! n))) as [Hn|_].
  - rewrite Hfree in Hn by (by left). by destruct Hn.
  - apply IH. intros n' Hn'. apply Hfree. by right.
Qed.


Lemma free_outer (keywords : gmap string value) function :
  free_keywords keywords →
  multiple_values function ["model"; "batch_size"] keywords = None.
Proof.
  intros (Hm & Hb & Hf). apply multiple_values_none. intros n Hn.
  apply elem_of_cons in Hn as [->|Hn]; [done|].
  apply list_elem_of_singleton in Hn. by subst n.
Qed.

Lemma free_inner (keywords : gmap string value) function :
  free_keywords keywords →
  multiple_values function ["batch_size"; "func"] keywords = None.
Proof.
  intros (Hm & Hb & Hf). apply multiple_values_none. intros n Hn.
  apply elem_of_cons in Hn as [->|Hn]; [done|].
  apply list_elem_of_singleton in Hn. by subst n.
Qed.

Lemma free_without_verbose (keywords : gmap string value) :
  free_keywords keywords → free_keywords (delete "verbose" keywords).
Proof.
  intros (Hm & Hb & Hf). unfold free_keywords.
  by rewrite !lookup_delete_ne.
Qed.

(** X8.  The keywords of the call bind (none is named "model",
    "batch_size" or "func").  When the model's method returns at the first
    invocation, the evaluate and predict wrappers return its result: the
    method got "x" as first argument, [verbose] (1 unless given) and the
    keywords of the call other than "x", "validation_data" and "verbose";
    nothing is printed. *)
Theorem evaluate_predict_first_try {World} (model : Model World)
    (fuel : nat) (bs : Z) (keywords : gmap string value) (env : Env World)
    (xv r : value) (w : World) :
  let verbose := default (VInt 1) (keywords !! "verbose") in
  let vd := default VNone (keywords !! "validation_data") in
  let kw := delete "validation_data" (delete "x" (delete "verbose" keywords)) in
  free_keywords keywords →
  keywords !! "x" = Some xv →
  0 < bs →
  (evaluate model (world env) xv verbose kw = (w, inr r) →
   evaluate_with_adaptive_batch_size (S fuel) model bs keywords env
   = (Returned r, Some (MkLocals bs xv vd kw),
      MkEnv w (stdout env) (calls env ++ [MkCall bs xv vd])))
  ∧ (predict model (world env) xv verbose kw = (w, inr r) →
     predict_with_adaptive_batch_size (S fuel) model bs keywords env
     = (Returned r, Some (MkLocals bs xv vd kw),
        MkEnv w (stdout env) (calls env ++ [MkCall bs xv vd]))).
Proof.
  intros verbose vd kw Hfree Hx Hbs.
  assert (Hx' : delete "verbose" keywords !! "x" = Some xv)
    by (by rewrite lookup_delete_ne).
  assert (Hvd : default VNone (delete "verbose" keywords !! "validation_data")
                = vd)
    by (by rewrite lookup_delete_ne).
  pose proof (free_without_verbose keywords Hfree) as Hfree'.
  split; intros Hm.
  - unfold evaluate_with_adaptive_batch_size, bind_verbose.
    rewrite (free_outer keywords _ Hfree), (free_inner _ _ Hfree').
    rewrite (run_enters_loop _ (S fuel) bs _ env xv Hx'), Hvd.
    fold verbose kw. cbn [while_loop batch_size].
    destruct (Z.ltb_spec 0 bs); [|lia].
    by erewrite loop_body_success by exact Hm.
  - unfold predict_with_adaptive_batch_size, bind_verbose.
    rewrite (free_outer keywords _ Hfree), (free_inner _ _ Hfree').
    rewrite (run_enters_loop _ (S fuel) bs _ env xv Hx'), Hvd.
    fold verbose kw. cbn [while_loop batch_size].
    destruct (Z.ltb_spec 0 bs); [|lia].
    by erewrite loop_body_success by exact Hm.
Qed.

Lemma evaluate_predict_first_try_witness :
  let keywords : gmap string value :=
    {[ "x" := VDataset Samples.train; "verbose" := VInt 0;
       "steps" := VInt 2 ]} in
  let verbose := default (VInt 1) (keywords !! "verbose") in
  let vd := default VNone (keywords !! "validation_data") in
  let kw := delete "validation_data" (delete "x" (delete "verbose" keywords)) in
  evaluate_with_adaptive_batch_size 1 MoreSamples.echo 32 keywords Samples.env0
  = (Returned (VInt 0), Some (MkLocals 32 (VDataset Samples.train) vd kw),
     MkEnv 1%nat (stdout Samples.env0)
       (calls Samples.env0 ++ [MkCall 32 (VDataset Samples.train) vd])).
Proof.
  refine (proj1 (evaluate_predict_first_try MoreSamples.echo 0 32
                   ({[ "x" := VDataset Samples.train; "verbose" := VInt 0;
                       "steps" := VInt 2 ]} : gmap string value)
                   Samples.env0 (VDataset Samples.train) (VInt 0) 1%nat
                   _ _ _) _).
  - vm_compute. repeat split.
  - vm_compute. reflexivity.
  - lia.
  - vm_compute. reflexivity.
Defined.

(** X9.  The keywords of the call bind (none is named "model",
    "batch_size" or "func").  When [model.fit] returns at the first
    invocation, the fit wrapper returns the model it was given together
    with that history; [model.fit] got the keywords of the call, with
    "validation_data" set to [None] when the call had none. *)
Theorem fit_first_try {World} (model : Model World) (fuel : nat) (bs : Z)
    (kwargs : gmap string value) (env : Env World) (xv history : value)
    (w : World) :
  let vd := default VNone (kwargs !! "validation_data") in
  free_keywords kwargs →
  kwargs !! "x" = Some xv →
  0 < bs →
  fit model (world env) (<["validation_data" := vd]> kwargs)
    = (w, inr history) →
  fit_with_adaptive_batch_size (S fuel) model bs kwargs env
  = (FitReturned model history,
     Some (MkLocals bs xv vd (delete "validation_data" (delete "x" kwargs))),
     MkEnv w (stdout env) (calls env ++ [MkCall bs xv vd])).
Proof.
  intros vd Hfree Hx Hbs Hfit. unfold fit_with_adaptive_batch_size.
  rewrite (free_outer kwargs _ Hfree), (free_inner kwargs _ Hfree).
  rewrite (run_enters_loop _ (S fuel) bs kwargs env xv Hx). fold vd.
  cbn [while_loop batch_size]. destruct (Z.ltb_spec 0 bs); [|lia].
  erewrite loop_body_success; [done|].
  unfold fit_callable. cbn [x validation_data fit_kwargs].
  by rewrite (fit_keywords kwargs xv vd Hx).
Qed.

Lemma fit_first_try_witness :
  let kwargs : gmap string value :=
    {[ "x" := VDataset Samples.train; "epochs" := VInt 3 ]} in
  let vd := default VNone (kwargs !! "validation_data") in
  fit_with_adaptive_batch_size 1 MoreSamples.echo 32 kwargs Samples.env0
  = (FitReturned MoreSamples.echo VNone,
     Some (MkLocals 32 (VDataset Samples.train) vd
             (delete "validation_data" (delete "x" kwargs))),
     MkEnv 1%nat (stdout Samples.env0)
       (calls Samples.env0 ++ [MkCall 32 (VDataset Samples.train) vd])).
Proof.
  apply (fit_first_try MoreSamples.echo 0 32
           {[ "x" := VDataset Samples.train; "epochs" := VInt 3 ]}
           Samples.env0 (VDataset Samples.train) VNone 1%nat).
  - vm_compute. repeat split.
  - vm_compute. reflexivity.
  - lia.
  - vm_compute. reflexivity.
Defined.

Lemma fit_keywords_replaced (kwargs : gmap string value) xv vd :
  <["x" := xv]>
    (<["validation_data" := vd]>
       (delete "validation_data" (delete "x" kwargs)))
  = <["x" := xv]> (<["validation_data" := vd]> kwargs).
Proof.
  apply map_eq. intros k.
  destruct (decide (k = "x")) as [->|Hkx].
  { by rewrite !lookup_insert_eq. }
  rewrite !(lookup_insert_ne _ "x") by done.
  destruct (decide (k = "validation_data")) as [->|Hkv].
  { by rewrite !lookup_insert_eq. }
  by rewrite !lookup_insert_ne, !lookup_delete_ne.
Qed.

(** X10.  The keywords of the call bind (none is named "model",
    "batch_size" or "func").  When [model.fit] runs out of memory once and
    then returns, the fit wrapper returns the model with the history of
    the second invocation.  The first invocation gets the keywords of the call; the
    second gets them with "x" and "validation_data" re-batched by half the
    batch size; one message is printed in between. *)
Theorem fit_retries_once {World} (model : Model World) (fuel : nat) (bs : Z)
    (kwargs : gmap string value) (env : Env World) (d d' dv dv' : Dataset)
    (w1 w2 : World) (e : exn) (history : value) :
  let x2 := VDataset (batch (bs `div` 2) d') in
  let v2 := VDataset (batch (bs `div` 2) dv') in
  free_keywords kwargs →
  kwargs !! "x" = Some (VDataset d) →
  kwargs !! "validation_data" = Some (VDataset dv) →
  unbatch d = inr d' →
  unbatch dv = inr dv' →
  1 < bs →
  fit model (world env) kwargs = (w1, inl e) →
  is_resource_exhausted e = true →
  fit model w1 (<["x" := x2]> (<["validation_data" := v2]> kwargs))
    = (w2, inr history) →
  fit_with_adaptive_batch_size (S (S fuel)) model bs kwargs env
  = (FitReturned model history,
     Some (MkLocals (bs `div` 2) x2 v2
             (delete "validation_data" (delete "x" kwargs))),
     MkEnv w2 (stdout env ++ [reduce_message (bs `div` 2)])
       (calls env ++ [MkCall bs (VDataset d) (VDataset dv);
                      MkCall (bs `div` 2) x2 v2])).
Proof.
  intros x2 v2 Hfree Hx Hv Hd Hdv Hbs Hf1 He Hf2.
  unfold fit_with_adaptive_batch_size.
  rewrite (free_outer kwargs _ Hfree), (free_inner kwargs _ Hfree).
  rewrite (run_enters_loop _ (S (S fuel)) bs kwargs env _ Hx), Hv.
  cbn [default from_option id].
  set (kw := delete "validation_data" (delete "x" kwargs)).
  assert (0 < bs `div` 2) by (apply Z.div_str_pos; lia).
  cbn [while_loop batch_size]. destruct (Z.ltb_spec 0 bs); [|lia].
  erewrite (loop_body_retry (fit_callable model) _ env w1 e x2 v2);
    cbn [x validation_data fit_kwargs batch_size is_none].
  - cbn [halved batch_size x validation_data fit_kwargs].
    destruct (Z.ltb_spec 0 (bs `div` 2)); [|lia].
    erewrite loop_body_success.
    + unfold invoked, announced.
      cbn [world stdout calls batch_size x validation_data fit_kwargs].
      by rewrite <- app_assoc.
    + unfold fit_callable, announced, invoked, halved.
      cbn [world x validation_data fit_kwargs].
      subst kw. by rewrite fit_keywords_replaced.
  - unfold fit_callable. subst kw.
    rewrite (fit_keywords kwargs _ _ Hx), insert_id by done. exact Hf1.
  - exact He.
  - lia.
  - unfold unbatch_batch. by rewrite Hd.
  - unfold unbatch_batch. by rewrite Hdv.
Qed.

Lemma fit_retries_once_witness :
  let model : Model nat := {|
    evaluate w xv verbose kw := (S w, inr verbose);
    predict w xv verbose kw := (S w, inr xv);
    fit w kw := Samples.fits_below_8 w (default VNone (kw !! "x")) VNone kw |} in
  let x2 := VDataset (batch (8 `div` 2) (Ds (ds_rows Samples.train) [])) in
  let v2 := VDataset (batch (8 `div` 2) (Ds (ds_rows Samples.held_out) [])) in
  let kwargs : gmap string value :=
    {[ "x" := VDataset (Ds (ds_rows Samples.train) [8]);
       "validation_data" := VDataset (Ds (ds_rows Samples.held_out) [8]) ]} in
  fit_with_adaptive_batch_size 2 model 8 kwargs Samples.env0
  = (FitReturned model (VStr "history"),
     Some (MkLocals (8 `div` 2) x2 v2
             (delete "validation_data" (delete "x" kwargs))),
     MkEnv 2%nat (stdout Samples.env0 ++ [reduce_message (8 `div` 2)])
       (calls Samples.env0
        ++ [MkCall 8 (VDataset (Ds (ds_rows Samples.train) [8]))
              (VDataset (Ds (ds_rows Samples.held_out) [8]));
            MkCall (8 `div` 2) x2 v2])).
Proof.
  intros model x2 v2 kwargs.
  apply (fit_retries_once model 0 8 kwargs Samples.env0
           (Ds (ds_rows Samples.train) [8]) (Ds (ds_rows Samples.train) [])
           (Ds (ds_rows Samples.held_out) [8])
           (Ds (ds_rows Samples.held_out) []) 1%nat 2%nat Samples.oom
           (VStr "history")).
  - vm_compute. repeat split.
  - vm_compute. reflexivity.
  - vm_compute. reflexivity.
  - reflexivity.
  - reflexivity.
  - lia.
  - vm_compute. reflexivity.
  - reflexivity.
  - vm_compute. reflexivity.
Defined.



End WrapperFacts.

(** ** contain_instance *)

Module ContainFacts.
Import Contain.

Section Facts.
Context {Obj Ty : Type} (isinstance : Obj → Ty → exn + bool).

Lemma isinstance_each_answers (l : list Obj) (t : Ty) :
  (∀ o, o ∈ l → ∃ b, isinstance o t = inr b) →
  ∃ bs, isinstance_each isinstance l t = inr bs
        ∧ (any bs = true ↔ ∃ o, o ∈ l ∧ isinstance o t = inr true).
Proof.
  induction l as [|o l IH]; intros Hall.
  { exists []. split; [done|]. split; [done|]. intros (o & Ho & _).
    by apply elem_of_nil in Ho. }
  destruct (Hall o) as [b Hb]; [by left|].
  destruct IH as (bs & Hbs & Hany).
  { intros o' Ho'. apply Hall. by right. }
  exists (b :: bs). cbn [isinstance_each]. rewrite Hb, Hbs.
  split; [done|]. unfold any in *. cbn [existsb id].
  rewrite orb_true_iff, Hany. split.
  - intros [->|(o' & Ho' & Ht)].
    + exists o. split; [by left|done].
    + exists o'. split; [by right|done].
  - intros (o' & Ho' & Ht). apply elem_of_cons in Ho' as [->|Ho'].
    + left. congruence.
    + right. eauto.
Qed.
End Facts.

(** X11.  When [isinstance] answers for every element, the call returns
    a boolean, which is true exactly when some element of the list is an
    instance; for the empty list it is false. *)
Theorem contain_instance_finds {Obj Ty} (isinstance : Obj → Ty → exn + bool)
    (instance_list : list Obj) (instance_type : Ty) :
  (∀ o, o ∈ instance_list → ∃ b, isinstance o instance_type = inr b) →
  ∃ b, contain_instance isinstance instance_list instance_type = Normal b
       ∧ (b = true ↔
          ∃ o, o ∈ instance_list ∧ isinstance o instance_type = inr true).
Proof.
  intros Hall.
  destruct (isinstance_each_answers isinstance _ _ Hall) as (bs & Hbs & Hany).
  exists (any bs). unfold contain_instance. by rewrite Hbs.
Qed.

Lemma contain_instance_finds_witness :
  ∃ b, contain_instance MoreSamples.isinstance
         [["Input"; "object"]; ["ImageInput"; "Input"; "object"]]
         (Some "ImageInput") = Normal b
       ∧ (b = true ↔
          ∃ o, o ∈ [["Input"; "object"]; ["ImageInput"; "Input"; "object"]]
               ∧ MoreSamples.isinstance o (Some "ImageInput") = inr true).
Proof.
  apply (contain_instance_finds MoreSamples.isinstance
           [["Input"; "object"]; ["ImageInput"; "Input"; "object"]]
           (Some "ImageInput")).
  intros o _. eexists. reflexivity.
Defined.

(** X12.  The list of answers is built in full before [any] looks at it:
    when [isinstance] raises for some element, the call raises the error
    of the first such element, also when an element before it is an
    instance. *)
Theorem contain_instance_raises {Obj Ty} (isinstance : Obj → Ty → exn + bool)
    (before after : list Obj) (o : Obj) (instance_type : Ty) (e : exn) :
  (∀ o', o' ∈ before → ∃ b, isinstance o' instance_type = inr b) →
  isinstance o instance_type = inl e →
  contain_instance isinstance (before ++ o :: after) instance_type = Raises e.
Proof.
  intros Hall He. unfold contain_instance.
  induction before as [|o' before IH]; cbn [isinstance_each app].
  { by rewrite He. }
  destruct (Hall o') as [b ->]; [by left|].
  destruct (isinstance_each isinstance (before ++ o :: after) instance_type)
    as [e'|bs] eqn:E.
  - apply IH. intros o'' Ho''. apply Hall. by right.
  - exfalso. assert (Raises e = Normal (any bs)) as Hbad; [|done].
    rewrite <- IH; [done|]. intros o'' Ho''. apply Hall. by right.
Qed.

Lemma contain_instance_raises_witness :
  contain_instance
    (λ (o : string * list string) (t : option string),
       if String.eqb o.1 "broken" then MoreSamples.isinstance o.2 None
       else MoreSamples.isinstance o.2 t)
    ([("a", ["Input"])] ++ ("broken", []) :: [("b", ["Input"])])
    (Some "Input")
  = Raises (Exn (OtherError "TypeError")
      "isinstance() arg 2 must be a type, a tuple of types, or a union").
Proof.
  apply (contain_instance_raises
           (λ (o : string * list string) (t : option string),
              if String.eqb o.1 "broken" then MoreSamples.isinstance o.2 None
              else MoreSamples.isinstance o.2 t)
           [("a", ["Input"])] [("b", ["Input"])] ("broken", [])
           (Some "Input")).
  - intros o' Ho'. apply list_elem_of_singleton in Ho'. subst o'.
    eexists. reflexivity.
  - reflexivity.
Defined.

End ContainFacts.

(** ** add_to_hp on a HyperParameter *)

Module RegistryFacts.
Import HP.

(** X13.  For a HyperParameter whose configuration has "conditions" and
    "name" and whose class names a method of the container, that method
    is looked up and called once: with the name given, or the
    hyperparameter's own when none is given, and with the configuration
    without "conditions" and "name"; the call's result and the container
    it leaves are what [add_to_hp] gives back. *)
Theorem add_to_hp_registers {R} `{HyperParameters R} (h : HyperParameter)
    (hps : R) (name : option string) (c n : value) :
  let name' := default (hp_name h) name in
  let kwargs := delete "name" (delete "conditions" (hp_get_config h)) in
  hp_get_config h !! "conditions" = Some c →
  hp_get_config h !! "name" = Some n →
  has_method hps (hp_class_name h) = true →
  add_to_hp (Instance h) hps name
  = (match (invoke hps (hp_class_name h) name' kwargs).2 with
     | inl e => Raises e
     | inr v => Normal (Plain v)
     end,
     (invoke hps (hp_class_name h) name' kwargs).1,
     [Getattr (hp_class_name h); Invoke (hp_class_name h) name' kwargs]).
Proof.
  intros name' kwargs Hc Hn Hm. unfold add_to_hp, pop.
  rewrite Hc, lookup_delete_ne, Hn, Hm by done.
  replace (match name with Some n0 => n0 | None => hp_name h end)
    with name' by (by destruct name).
  fold kwargs. by destruct (invoke hps (hp_class_name h) name' kwargs).
Qed.

Lemma add_to_hp_registers_witness :
  let name' := default (hp_name Samples.units) (Some "width") in
  let kwargs :=
    delete "name" (delete "conditions" (hp_get_config Samples.units)) in
  add_to_hp (Instance Samples.units) ([] : Samples.registry) (Some "width")
  = (match (invoke ([] : Samples.registry) (hp_class_name Samples.units)
              name' kwargs).2 with
     | inl e => Raises e
     | inr v => Normal (Plain v)
     end,
     (invoke ([] : Samples.registry) (hp_class_name Samples.units)
        name' kwargs).1,
     [Getattr (hp_class_name Samples.units);
      Invoke (hp_class_name Samples.units) name' kwargs]).
Proof.
  apply (add_to_hp_registers Samples.units ([] : Samples.registry)
           (Some "width") VNone (VStr "units")).
  - vm_compute. reflexivity.
  - vm_compute. reflexivity.
  - vm_compute. reflexivity.
Defined.

(** X14.  For a HyperParameter whose configuration lacks "conditions" or
    "name", the call raises KeyError; nothing is looked up or called on
    the container, which is left as it was. *)
Theorem add_to_hp_missing_key {R} `{HyperParameters R} (h : HyperParameter)
    (hps : R) (name : option string) :
  hp_get_config h !! "conditions" = None ∨ hp_get_config h !! "name" = None →
  ∃ e, add_to_hp (Instance h) hps name = (Raises e, hps, [])
       ∧ exn_cls e = KeyError.
Proof.
  intros Hmiss. unfold add_to_hp, pop.
  destruct (hp_get_config h !! "conditions") as [c|] eqn:Hc; [|by eexists].
  rewrite lookup_delete_ne by done.
  destruct Hmiss as [|Hn]; [done|]. rewrite Hn. by eexists.
Qed.

Lemma add_to_hp_missing_key_witness :
  ∃ e, add_to_hp (Instance MoreSamples.no_conditions)
         ([] : Samples.registry) None
       = (Raises e, [], [])
       ∧ exn_cls e = KeyError.
Proof.
  apply (add_to_hp_missing_key MoreSamples.no_conditions
           ([] : Samples.registry) None).
  left. vm_compute. reflexivity.
Defined.

(** X15.  For a HyperParameter whose class names no method of the
    container, the call raises AttributeError after that one lookup:
    nothing is called and the container is left as it was. *)
Theorem add_to_hp_unknown_class {R} `{HyperParameters R} (h : HyperParameter)
    (hps : R) (name : option string) (c n : value) :
  hp_get_config h !! "conditions" = Some c →
  hp_get_config h !! "name" = Some n →
  has_method hps (hp_class_name h) = false →
  ∃ e, add_to_hp (Instance h) hps name
       = (Raises e, hps, [Getattr (hp_class_name h)])
       ∧ exn_cls e = AttributeError.
Proof.
  intros Hc Hn Hm. unfold add_to_hp, pop.
  rewrite Hc, lookup_delete_ne, Hn, Hm by done. by eexists.
Qed.

Lemma add_to_hp_unknown_class_witness :
  ∃ e, add_to_hp (Instance MoreSamples.unknown_class)
         ([] : Samples.registry) None
       = (Raises e, [], [Getattr (hp_class_name MoreSamples.unknown_class)])
       ∧ exn_cls e = AttributeError.
Proof.
  apply (add_to_hp_unknown_class MoreSamples.unknown_class
           ([] : Samples.registry) None VNone (VStr "curve")).
  - vm_compute. reflexivity.
  - vm_compute. reflexivity.
  - vm_compute. reflexivity.
Defined.

End RegistryFacts.

(** ** The serialization shims *)

Module SerializeFacts.
Import Serialize.

(** X16.  The two shims choose the namespace by the same test, so what
    one writes the other reads: when every namespace of the framework
    reads back what it wrote itself, [deserialize_keras_object] gives
    back the object that [serialize_keras_object] was given, whatever the
    other three arguments. *)
Theorem serialize_then_deserialize {Obj Config}
    (utils : KerasUtils Obj Config) (obj : Obj) (config : Config)
    (module_objects custom_objects printable_module_name : value) :
  (∀ ns, legacy utils = Some ns ∨ (legacy utils = None ∧ ns = current utils) →
     ∀ o cfg a b c,
       ns_serialize ns o = inr cfg → ns_deserialize ns cfg a b c = inr o) →
  serialize_keras_object utils obj = inr config →
  deserialize_keras_object utils config module_objects custom_objects
    printable_module_name = inr obj.
Proof.
  intros Hns. unfold serialize_keras_object, deserialize_keras_object.
  destruct (legacy utils) as [ns|] eqn:El; intros Hs.
  - by apply (Hns ns); [left|].
  - by apply (Hns (current utils)); [right|].
Qed.

Lemma serialize_then_deserialize_witness :
  deserialize_keras_object MoreSamples.with_legacy (1%nat, 5%nat)
    VNone VNone VNone = inr 5%nat.
Proof.
  apply (serialize_then_deserialize MoreSamples.with_legacy 5%nat
           (1%nat, 5%nat) VNone VNone VNone).
  - intros ns [Hl|[Hl _]]; [|discriminate Hl].
    injection Hl as <-. intros o cfg a b c [= <-]. reflexivity.
  - reflexivity.
Defined.

End SerializeFacts.

(** ** The name conversion, continued *)

Module SnakeMore.
Import Re Words Letters SnakeFacts.

Lemma list_ascii_of_string_inj s1 s2 :
  String.list_ascii_of_string s1 = String.list_ascii_of_string s2 → s1 = s2.
Proof.
  intros Heq.
  rewrite <- (String.string_of_list_ascii_of_string s1),
          <- (String.string_of_list_ascii_of_string s2).
  by rewrite Heq.
Qed.

Lemma lower_char_separator c :
  Ascii.eqb (lower_char c) "_" = Ascii.eqb c "_".
Proof. by_cases_on_char c. Qed.

Lemma without_separators_lower s :
  without_separators (lower s) = lower (without_separators s).
Proof.
  induction s as [|c s IH]; [done|].
  unfold lower in *. cbn [map without_separators].
  rewrite lower_char_separator, IH. by destruct (Ascii.eqb c "_").
Qed.

Lemma without_separators_humps s :
  without_separators (separate_humps s) = without_separators s.
Proof.
  induction s as [|c s IH]; [done|].
  cbn [separate_humps].
  destruct (is_lower c && _); cbn [without_separators]; by rewrite IH.
Qed.

Lemma without_separators_words before w s :
  without_separators (separate_words before w s) = without_separators s.
Proof.
  revert w.
  induction s as [s IH] using (induction_ltof1 _ (@length ascii)).
  unfold ltof in IH. intros w.
  destruct s as [|c rest]; [done|].
  cbn [separate_words].
  destruct (w && is_lowdig c).
  { cbn [without_separators]. by rewrite IH by (simpl; lia). }
  destruct rest as [|u [|l rest']].
  - done.
  - cbn [without_separators]. by rewrite IH by (simpl; lia).
  - destruct (before c && is_upper u && is_lowdig l).
    + cbn [without_separators]. change (Ascii.eqb "_" "_") with true.
      cbv iota. by rewrite (IH rest') by (simpl; lia).
    + cbn [without_separators].
      rewrite (IH (u :: l :: rest')) by (simpl; lia). done.
Qed.

(** X17.  A name written in ASCII is returned as it is exactly when it
    has no uppercase letter. *)
Theorem to_snake_case_fixed_points (name : string) :
  ascii_only (String.list_ascii_of_string name) →
  to_snake_case name = name ↔ no_upper (String.list_ascii_of_string name).
Proof.
  intros _. unfold to_snake_case. split.
  - intros Hfix.
    apply (f_equal String.list_ascii_of_string) in Hfix.
    rewrite String.list_ascii_of_string_of_list_ascii in Hfix.
    rewrite <- Hfix, to_snake_case_chars_scan. apply lower_no_upper.
  - intros Hno.
    rewrite to_snake_case_chars_scan.
    rewrite separate_words_id, separate_humps_id, lower_id by done.
    apply String.string_of_list_ascii_of_string.
Qed.

Lemma to_snake_case_fixed_points_witness :
  to_snake_case "conv2d_block" = "conv2d_block"
  ↔ no_upper (String.list_ascii_of_string "conv2d_block").
Proof.
  apply (to_snake_case_fixed_points "conv2d_block").
  repeat (constructor; [reflexivity|]). constructor.
Defined.

(** X18.  On a name written in ASCII the conversion adds separators and
    lowercases, and does nothing else: without its separators, the result
    is the lowercased name without its separators. *)
Theorem to_snake_case_only_adds_separators (name : string) :
  ascii_only (String.list_ascii_of_string name) →
  without_separators (String.list_ascii_of_string (to_snake_case name))
  = without_separators (lower (String.list_ascii_of_string name)).
Proof.
  intros _. unfold to_snake_case.
  rewrite String.list_ascii_of_string_of_list_ascii.
  rewrite to_snake_case_chars_scan.
  rewrite !without_separators_lower.
  by rewrite without_separators_humps, without_separators_words.
Qed.

Lemma to_snake_case_only_adds_separators_witness :
  without_separators
    (String.list_ascii_of_string (to_snake_case "HTTPServer2_Go"))
  = without_separators (lower (String.list_ascii_of_string "HTTPServer2_Go")).
Proof.
  apply (to_snake_case_only_adds_separators "HTTPServer2_Go").
  repeat (constructor; [reflexivity|]). constructor.
Defined.

(** X19.  No separator is put in front of a name: the result begins with
    the lowercased first character of the name. *)
Theorem to_snake_case_keeps_first (c : ascii) (rest : string) :
  ∃ t, to_snake_case (String c rest) = String (lower_char c) t.
Proof.
  unfold to_snake_case. rewrite to_snake_case_chars_scan.
  cbn [String.list_ascii_of_string].
  assert (∃ t, separate_words not_newline false
                 (c :: String.list_ascii_of_string rest) = c :: t)
    as [t ->].
  { cbn [separate_words andb].
    destruct (String.list_ascii_of_string rest) as [|u [|l r]];
      [by eexists..|].
    destruct (not_newline c && is_upper u && is_lowdig l); by eexists. }
  assert (∃ t', separate_humps (c :: t) = c :: t') as [t' ->].
  { cbn [separate_humps]. destruct (is_lower c && _); by eexists. }
  eexists. reflexivity.
Qed.

End SnakeMore.

(** ** Input validation, continued *)

Module ValidateMore.
Import Nest.

Lemma flatten_Sequence items :
  flatten (Sequence items) = concat (map flatten items).
Proof. reflexivity. Qed.

Lemma flatten_Mapping items :
  flatten (Mapping items)
  = concat (map snd (sort_by_key (map (λ kv, (kv.1, flatten kv.2)) items))).
Proof. reflexivity. Qed.

(** The outcome depends on the number of leaves only. *)
Lemma validate_by_count a b num :
  length (flatten a) = length (flatten b) →
  validate_num_inputs a num = validate_num_inputs b num.
Proof. unfold validate_num_inputs. by intros ->. Qed.

Lemma validate_accepts inputs num :
  validate_num_inputs inputs num = Normal ()
  ↔ Z.of_nat (length (flatten inputs)) = num.
Proof.
  unfold validate_num_inputs.
  destruct (Z.eqb_spec (Z.of_nat (length (flatten inputs))) num); by split.
Qed.

Lemma length_concat_insert {A} (kv : string * list A) l :
  length (concat (map snd (insert_by_key kv l)))
  = (length kv.2 + length (concat (map snd l)))%nat.
Proof.
  induction l as [|kv' l IH]; cbn [insert_by_key].
  { cbn. by rewrite app_nil_r. }
  destruct (String.leb kv.1 kv'.1); cbn [map concat].
  - by rewrite length_app.
  - rewrite !length_app, IH. lia.
Qed.

Lemma length_concat_sort {A} (l : list (string * list A)) :
  length (concat (map snd (sort_by_key l))) = length (concat (map snd l)).
Proof.
  induction l as [|kv l IH]; [done|].
  unfold sort_by_key in *. cbn [foldr map concat].
  by rewrite length_concat_insert, length_app, IH.
Qed.

(** X21.  A dict is validated like the list of its values: the keys,
    and the order in which they are sorted, play no part. *)
Theorem validate_mapping_as_values (items : list (string * structure))
    (num : Z) :
  validate_num_inputs (Mapping items) num
  = validate_num_inputs (Sequence (map snd items)) num.
Proof.
  apply validate_by_count.
  rewrite flatten_Mapping, flatten_Sequence, length_concat_sort.
  f_equal. f_equal. rewrite !map_map. done.
Qed.

(** X22.  Grouping the inputs into sub-lists changes nothing: a list of
    lists is validated like the one list of all their items. *)
Theorem validate_ignores_grouping (groups : list (list structure)) (num : Z) :
  validate_num_inputs (Sequence (map Sequence groups)) num
  = validate_num_inputs (Sequence (concat groups)) num.
Proof.
  apply validate_by_count. f_equal.
  rewrite !flatten_Sequence.
  induction groups as [|g groups IH]; [done|].
  cbn [map concat]. rewrite map_app, concat_app, <- IH.
  by rewrite flatten_Sequence.
Qed.

End ValidateMore.

(** ** Version checks, continued *)

Module VersionMore.
Import Dotted.

(** X23.  Whatever the version parser and order are: when the installed
    version string does not parse, both checks raise the parser's
    exception and warn of nothing; and a check never issues more than one
    warning, always of category ImportWarning, and only when it
    returns. *)
Theorem version_check_outcomes `{Packaging} (installed : string) :
  (∀ e, parse installed = inl e →
        check_tf_version installed = (Raises e, [])
        ∧ check_kt_version installed = (Raises e, []))
  ∧ (∀ r ws,
       check_tf_version installed = (r, ws)
       ∨ check_kt_version installed = (r, ws) →
       (length ws ≤ 1)%nat
       ∧ ∀ w, w ∈ ws → warn_category w = "ImportWarning" ∧ r = Normal ()).
Proof.
  split.
  - intros e He. unfold check_tf_version, check_kt_version. by rewrite He.
  - intros r ws. unfold check_tf_version, check_kt_version.
    destruct (parse installed) as [e|v].
    { intros [[= <- <-]|[= <- <-]]; (split; [simpl; lia|]);
        intros w Hw; by apply elem_of_nil in Hw. }
    intros [Hc|Hc]; revert Hc.
    + destruct (parse "2.7.0") as [e|m].
      { intros [= <- <-]. split; [simpl; lia|].
        intros w Hw. by apply elem_of_nil in Hw. }
      destruct (version_ltb v m); intros [= <- <-].
      * split; [simpl; lia|]. intros w Hw.
        apply list_elem_of_singleton in Hw. by subst w.
      * split; [simpl; lia|]. intros w Hw. by apply elem_of_nil in Hw.
    + destruct (parse "1.1.0") as [e|m].
      { intros [= <- <-]. split; [simpl; lia|].
        intros w Hw. by apply elem_of_nil in Hw. }
      destruct (version_ltb v m); intros [= <- <-].
      * split; [simpl; lia|]. intros w Hw.
        apply list_elem_of_singleton in Hw. by subst w.
      * split; [simpl; lia|]. intros w Hw. by apply elem_of_nil in Hw.
Qed.

Lemma version_check_outcomes_witness :
  check_tf_version "two.seven"
  = (Raises (Exn InvalidVersion "Invalid version: 'two.seven'"), [])
  ∧ check_kt_version "two.seven"
    = (Raises (Exn InvalidVersion "Invalid version: 'two.seven'"), []).
Proof.
  apply (proj1 (version_check_outcomes "two.seven")).
  vm_compute. reflexivity.
Defined.

End VersionMore.
